(** * run_lora_vlm: dataset normalisation, subset selection / sharding and
      assistant-only label masking

    A shallow embedding of the data-handling part of
    [examples/vision-language-modeling/run_lora_vlm.py]:

    - [to_1d_ids]        (shape normalisation of the templating result),
    - [normalize_split]  (schema normalisation, inner function [_map]),
    - [process_vision_info] and [make_collate_fn] / [collate_fn],
    - the subset / shard / normalise / filter steps of [main].

    Python values that can fail are modelled in an exception monad
    ([result]); dictionaries are finite maps keyed by column name. *)

From Stdlib Require Import ZArith NArith Ascii String Lia.
From stdpp Require Import base option list gmap strings fin_maps numbers pretty.

Open Scope Z_scope.

(** ** Python strings, exceptions, values *)

Module Py.

(** A Python [str] is the sequence of its Unicode code points. *)
Definition str : Type := list N.

(** ASCII literals. *)
Definition lit (s : string) : str := N_of_ascii <$> list_ascii_of_string s.

(** [str.isspace] on one code point (CPython's whitespace table). *)
Definition isspace (c : N) : bool :=
  (((9 <=? c) && (c <=? 13)) || ((28 <=? c) && (c <=? 32))
   || (c =? 133) || (c =? 160) || (c =? 5760)
   || ((8192 <=? c) && (c <=? 8202))
   || (c =? 8232) || (c =? 8233) || (c =? 8239) || (c =? 8287)
   || (c =? 12288))%N.

Fixpoint lstrip (s : str) : str :=
  match s with
  | c :: s' => if isspace c then lstrip s' else s
  | [] => []
  end.

Definition rstrip (s : str) : str := rev (lstrip (rev s)).

(** [s.strip()] *)
Definition strip (s : str) : str := rstrip (lstrip s).

Inductive exn : Type :=
  | ValueError (msg : string)
  | KeyError (key : string)
  | IndexError
  | AttributeError
  | TypeError
  | RuntimeError (msg : string)
  | ArrowInvalid.

Inductive result (A : Type) : Type :=
  | Ok (a : A)
  | Raise (e : exn).
Arguments Ok {A} a.
Arguments Raise {A} e.

#[global] Instance result_ret : MRet result := fun _ a => Ok a.
#[global] Instance result_bind : MBind result := fun _ _ f m =>
  match m with Ok a => f a | Raise e => Raise e end.
#[global] Instance result_fmap : FMap result := fun _ _ f m =>
  match m with Ok a => Ok (f a) | Raise e => Raise e end.

Definition is_raise {A} (m : result A) : bool :=
  match m with Raise _ => true | Ok _ => false end.

End Py.
Export Py.

(** ** PIL images *)

Module PIL.

(** An image is its mode string, its size and its pixel bytes. *)
Record Image : Type := mkImage {
  im_mode : string;
  im_size : nat * nat;
  im_data : list Z;
}.

(** Pixel conversion between two modes is PIL's business. *)
Class PixelConverter : Type :=
  convert_data : string -> string -> list Z -> list Z.

(** [im.convert(mode)]: a copy when the mode already matches. *)
Definition convert `{PixelConverter} (im : Image) (mode : string) : Image :=
  if String.eqb (im_mode im) mode then im
  else {| im_mode := mode; im_size := im_size im;
          im_data := convert_data (im_mode im) mode (im_data im) |}.

End PIL.
Export PIL.

(** ** Column values of a dataset row *)

#[warnings="-register-all"]
Inductive value : Type :=
  | VNone
  | VStr (s : str)
  | VInt (n : Z)
  | VList (l : list value)
  | VImage (im : Image).

(** A row ([ex]) is a dict from column name to value. *)
Abbreviation row := (gmap string value).

(** Truthiness, as used by [x or y]. *)
Definition truthy (v : value) : bool :=
  match v with
  | VNone => false
  | VStr s => negb (bool_decide (s = []))
  | VInt n => negb (n =? 0)
  | VList l => match l with [] => false | _ => true end
  | VImage _ => true
  end.

Definition py_or (v w : value) : value := if truthy v then v else w.

(** [v.strip()]: only [str] has the method. *)
Definition strip_method (v : value) : result str :=
  match v with
  | VStr s => Ok (strip s)
  | _ => Raise AttributeError
  end.

(** [v.convert("RGB")]: only images have the method. *)
Definition convert_method `{PixelConverter} (v : value) (mode : string)
  : result Image :=
  match v with
  | VImage im => Ok (convert im mode)
  | _ => Raise AttributeError
  end.

(** [ex[k]] *)
Definition getitem (ex : row) (k : string) : result value :=
  match ex !! k with
  | Some v => Ok v
  | None => Raise (KeyError k)
  end.

(** [ex.get(k)] *)
Definition get (ex : row) (k : string) : value := default VNone (ex !! k).

(** [k in ex] *)
Definition contains (ex : row) (k : string) : bool :=
  match ex !! k with Some _ => true | None => false end.

Definition is_none (v : value) : bool :=
  match v with VNone => true | _ => false end.

(** ** normalize_split *)

Module Normalize.
Section Normalize.
Context `{PixelConverter}.

Definition missing_image : exn := ValueError "Missing 'image' column.".
Definition unknown_schema : exn :=
  ValueError "Unknown schema; expected ['query','label'] or ['question','answer'].".

(** The inner function [_map] of [normalize_split]. *)
Definition _map (ex : row) : result row :=
  let img := get ex "image" in
  if is_none img then Raise missing_image
  else
    qa ← (if contains ex "query" && contains ex "label" then
            vq ← getitem ex "query";
            q ← strip_method (py_or vq (VStr []));
            lab ← getitem ex "label";
            let a := match lab with
                     | VList (x :: _) => x
                     | _ => VStr []
                     end in
            Ok (q, a)
          else if contains ex "question" && contains ex "answer" then
            vq ← getitem ex "question";
            q ← strip_method (py_or vq (VStr []));
            va ← getitem ex "answer";
            a ← strip_method (py_or va (VStr []));
            Ok (q, VStr a)
          else Raise unknown_schema);
    im ← convert_method img "RGB";
    Ok ({[ "image" := VImage im; "question" := VStr qa.1; "answer" := qa.2 ]} : row).

(** The Arrow type of a column value, as far as rows hold such values. *)
Inductive arrow_type : Type :=
  | ANull
  | AString
  | AInt64
  | AImage
  | AList (item : arrow_type).

(** Two values can share a column when their types unify; [None] goes
    with every type. *)
Fixpoint unify (a b : arrow_type) : option arrow_type :=
  match a, b with
  | ANull, t => Some t
  | t, ANull => Some t
  | AString, AString => Some AString
  | AInt64, AInt64 => Some AInt64
  | AImage, AImage => Some AImage
  | AList x, AList y => AList <$> unify x y
  | _, _ => None
  end.

Fixpoint infer_type (v : value) : option arrow_type :=
  match v with
  | VNone => Some ANull
  | VStr _ => Some AString
  | VInt _ => Some AInt64
  | VImage _ => Some AImage
  | VList l =>
      AList <$>
        (fix items (l : list value) (acc : arrow_type) : option arrow_type :=
           match l with
           | [] => Some acc
           | x :: rest => t ← infer_type x; u ← unify acc t; items rest u
           end) l ANull
  end.

Fixpoint column_type (vs : list value) (acc : arrow_type)
  : option arrow_type :=
  match vs with
  | [] => Some acc
  | v :: rest => t ← infer_type v; u ← unify acc t; column_type rest u
  end.

Definition column_typed (rows : list row) (k : string) : bool :=
  match column_type ((fun ex => get ex k) <$> rows) ANull with
  | Some _ => true
  | None => false
  end.

(** Writing the mapped rows to the Arrow table (one writer batch):
    every column needs one type; pyarrow refuses a column that mixes,
    say, [int] and [str] with [ArrowInvalid]. *)
Definition write_table (rows : list row) : result (list row) :=
  if column_typed rows "image" && column_typed rows "question"
     && column_typed rows "answer"
  then Ok rows else Raise ArrowInvalid.

(** [ds.map(_map, remove_columns=ds.column_names)]: rows are mapped in
    order and written to a new table; an exception raised by [_map]
    leaves [map] and the run. *)
Definition normalize_split (ds : list row) : result (list row) :=
  rows ← mapM _map ds; write_table rows.

(** The filter applied after normalisation in [main]. *)
Definition answer_filter (ex : row) : result bool :=
  v ← getitem ex "answer";
  match v with
  | VStr s => Ok (negb (bool_decide (strip s = [])))
  | _ => Ok false
  end.

(** The two conditions under which [_map] raises [ValueError]. *)
Definition image_missing (ex : row) : bool := is_none (get ex "image").

Definition known_schema (ex : row) : bool :=
  (contains ex "query" && contains ex "label")
  || (contains ex "question" && contains ex "answer").

(** Column types of the data model: a text column holds a [str] or
    [None], the image column an image or [None]; [label] is free. *)
Definition is_text (v : value) : bool :=
  match v with VNone | VStr _ => true | _ => false end.

Definition is_image_or_none (v : value) : bool :=
  match v with VNone | VImage _ => true | _ => false end.

Definition column_ok (ex : row) (k : string) (p : value -> bool) : bool :=
  match ex !! k with Some v => p v | None => true end.

Definition well_typed (ex : row) : bool :=
  column_ok ex "image" is_image_or_none
  && column_ok ex "query" is_text
  && column_ok ex "question" is_text
  && column_ok ex "answer" is_text.

End Normalize.
End Normalize.

(** ** Tensors and [to_1d_ids] *)

Module Torch.

(** An integer tensor: its shape and its elements in row-major order. *)
Record Tensor : Type := mkTensor {
  shape : list nat;
  data : list Z;
}.

Definition ndim (t : Tensor) : nat := length (shape t).

(** [t.numel()] *)
Definition numel (t : Tensor) : nat := foldr Nat.mul 1%nat (shape t).

(** [t.squeeze(0)]: drops dimension 0 when its size is 1. *)
Definition squeeze0 (t : Tensor) : Tensor :=
  match shape t with
  | 1%nat :: sh => {| shape := sh; data := data t |}
  | _ => t
  end.

(** [t.view(-1)] *)
Definition view_flat (t : Tensor) : Tensor :=
  {| shape := [numel t]; data := data t |}.

(** [t.long()]: a dtype change only, elements are already integers. *)
Definition long (t : Tensor) : Tensor := t.

(** Nested Python lists of integers, as [torch.as_tensor] accepts them. *)
#[warnings="-register-all"]
Inductive nested : Type :=
  | NInt (z : Z)
  | NList (l : list nested).

Definition int64_ok (z : Z) : bool :=
  (-9223372036854775808 <=? z) && (z <=? 9223372036854775807).

(** The sizes [torch.as_tensor] reads off a nested list: the lengths
    along the first elements, down to a scalar or an empty list. *)
Fixpoint compute_sizes (n : nested) : list nat :=
  match n with
  | NInt _ => []
  | NList l =>
      match l with
      | [] => [0%nat]
      | x :: _ => length l :: compute_sizes x
      end
  end.

Definition length_error (n dim got : nat) : exn :=
  ValueError ("expected sequence of length " +:+ pretty n +:+ " at dim "
              +:+ pretty dim +:+ " (got " +:+ pretty got +:+ ")").

(** Filling the tensor: every sequence at dimension [dim] needs the size
    read off the first elements, every leaf has to be an int64. *)
Fixpoint recursive_store (obj : nested) (sizes : list nat) (dim : nat)
  : result (list Z) :=
  match sizes with
  | [] =>
      match obj with
      | NInt z =>
          if int64_ok z then Ok [z]
          else Raise (RuntimeError "Overflow when unpacking long")
      | NList _ => Raise TypeError
      end
  | n :: sizes' =>
      match obj with
      | NInt _ => Raise TypeError
      | NList l =>
          if (length l =? n)%nat then
            (fix items (l : list nested) : result (list Z) :=
               match l with
               | [] => Ok []
               | x :: rest =>
                   d ← recursive_store x sizes' (S dim);
                   ds ← items rest;
                   Ok (d ++ ds)
               end) l
          else Raise (length_error n dim (length l))
      end
  end.

(** [torch.as_tensor(obj)] on a nested list; a tensor without elements
    is not filled. *)
Definition as_tensor (n : nested) : result Tensor :=
  let sizes := compute_sizes n in
  if (foldr Nat.mul 1%nat sizes =? 0)%nat
  then Ok {| shape := sizes; data := [] |}
  else data ← recursive_store n sizes 0; Ok {| shape := sizes; data := data |}.

End Torch.
Export Torch.

(** ** Tokenizer, processor, chat messages *)

Record Tokenizer : Type := mkTokenizer {
  pad_token : option str;
  eos_token : option str;
  unk_token_id : option Z;
  special_tokens_map : gmap string str;
  convert_tokens_to_ids : str -> option Z;
  (** [tok(text, return_tensors="pt").input_ids] has shape (1, T) *)
  tok_encode : str -> list Z;
}.

Inductive content_block : Type :=
  | BImage (image : value)
  | BText (text : str).

Record message : Type := mkMessage {
  role : string;
  content : list content_block;
}.

(** What sits under [input_ids] in an encoding. *)
Inductive ids_value : Type :=
  | IdsTensor (t : Tensor)
  | IdsNested (n : nested).

(** The shapes [apply_chat_template(..., tokenize=True)] has returned
    across library versions. *)
Inductive template_out : Type :=
  | OutEncoding (ids : ids_value)
  | OutDict (d : gmap string ids_value)
  | OutTensor (t : Tensor)
  | OutStr (s : str)
  | OutNested (n : nested).

(** The output of [processor(text=..., images=..., padding=True)];
    [input_ids] has one row per text. *)
Record Encoding : Type := mkEncoding {
  input_ids : list (list Z);
  attention_mask : list (list Z);
  pixel_values : list (list Z);
}.

Record Processor : Type := mkProcessor {
  tokenizer : Tokenizer;
  (** [apply_chat_template(msgs, tokenize=False, add_generation_prompt=False)] *)
  render_chat : list message -> result str;
  (** [apply_chat_template(batch, add_generation_prompt=True, tokenize=True,
       return_tensors="pt")] *)
  tokenize_chat : list (list message) -> result template_out;
  (** [processor(text=texts, images=images, return_tensors="pt", padding=True)] *)
  proc_call : list str -> list (list Image) -> result Encoding;
}.

Definition IGNORE_INDEX : Z := -100.

Module Collate.
Section Collate.
Context `{PixelConverter}.

(** First block of [to_1d_ids]: find the ids in whatever was returned. *)
Definition find_ids (obj : template_out) (processor : Processor)
  : result ids_value :=
  match obj with
  | OutEncoding ids => Ok ids
  | OutDict d =>
      match d !! "input_ids" with
      | Some ids => Ok ids
      | None => Raise (RuntimeError "Could not infer dtype of dict")
      end
  | OutTensor t => Ok (IdsTensor t)
  | OutStr s =>
      let ids := tok_encode (tokenizer processor) s in
      Ok (IdsTensor {| shape := [1%nat; length ids]; data := ids |})
  | OutNested n => t ← as_tensor n; Ok (IdsTensor t)
  end.

(** Second block: drop a leading batch dimension, flatten deep tensors. *)
Definition squeeze_ids (t : ids_value) : result Tensor :=
  match t with
  | IdsTensor t =>
      if (ndim t =? 2)%nat then Ok (squeeze0 t)
      else if (2 <? ndim t)%nat then Ok (view_flat t)
      else Ok t
  | IdsNested n =>
      t ← as_tensor n;
      if (ndim t =? 2)%nat then Ok (squeeze0 t) else Ok t
  end.

Definition to_1d_ids (obj : template_out) (processor : Processor)
  : result Tensor :=
  t ← find_ids obj processor;
  t ← squeeze_ids t;
  Ok (long t).

(** [process_vision_info]; every message here carries a content list. *)
Definition vision_of_block (elem : content_block) : result (list Image) :=
  match elem with
  | BImage im => i ← convert_method im "RGB"; Ok [i]
  | BText _ => Ok []
  end.

Definition process_vision_info (messages : list message)
  : result (list Image) :=
  imgs ← mapM (fun msg => blocks ← mapM vision_of_block (content msg);
                          Ok (concat blocks)) messages;
  Ok (concat imgs).

(** [labels[labels == tok_id] = IGNORE_INDEX], on one element; comparing
    with [None] selects nothing. *)
Definition mask1 (tok_id : option Z) (x : Z) : Z :=
  match tok_id with
  | Some k => if x =? k then IGNORE_INDEX else x
  | None => x
  end.

Definition mask_eq (tok_id : option Z) (labels : list (list Z))
  : list (list Z) :=
  map (map (mask1 tok_id)) labels.

(** [row[:n] = IGNORE_INDEX]: a slice stops at the end of the row. *)
Definition mask_prefix (n : nat) (r : list Z) : list Z :=
  replicate (Nat.min n (length r)) IGNORE_INDEX ++ drop n r.

(** [labels[i, :n] = IGNORE_INDEX] *)
Definition mask_row_prefix (labels : list (list Z)) (i n : nat)
  : result (list (list Z)) :=
  match labels !! i with
  | Some r => Ok (<[i := mask_prefix n r]> labels)
  | None => Raise IndexError
  end.

(** [for i, p_ids in enumerate(prompt_ids_list): ...], from index [i]. *)
Fixpoint mask_prompts (i : nat) (prompt_ids_list : list Tensor)
    (labels : list (list Z)) : result (list (list Z)) :=
  match prompt_ids_list with
  | [] => Ok labels
  | p_ids :: rest =>
      labels' ← mask_row_prefix labels i (numel p_ids);
      mask_prompts (S i) rest labels'
  end.

Definition LEGACY_IMAGE_TOKEN_ID : Z := 262144.

(** What [make_collate_fn] computes once, before returning [collate_fn]. *)
Record collate_env : Type := mkEnv {
  pad_id : option Z;
  boi_id : option Z;
  eoi_id : option Z;
}.

Definition special_id (tok : Tokenizer) (name : string) : option Z :=
  convert_tokens_to_ids tok (default [] (special_tokens_map tok !! name)).

Definition make_env (processor : Processor) : collate_env :=
  let tok := tokenizer processor in
  let pad := match pad_token tok with
             | Some p => Some p
             | None => eos_token tok
             end in
  {| pad_id := p ← pad; convert_tokens_to_ids tok p;
     boi_id := special_id tok "boi_token";
     eoi_id := special_id tok "eoi_token" |}.

(** [if isinstance(id, int) and id != tok.unk_token_id] *)
Definition maskable (tok : Tokenizer) (id : option Z) : option Z :=
  match id with
  | Some k => if bool_decide (Some k = unk_token_id tok) then None else Some k
  | None => None
  end.

Definition user_msg (image : value) (q : str) : message :=
  {| role := "user"; content := [BImage image; BText q] |}.

Definition assistant_msg (a : str) : message :=
  {| role := "assistant"; content := [BText a] |}.

(** One iteration of the [for ex in batch] loop. *)
Definition prepare (processor : Processor) (ex : row)
  : result (str * list Image * Tensor) :=
  vq ← getitem ex "question";
  q ← strip_method vq;
  a ← strip_method (py_or (get ex "answer") (VStr []));
  image ← getitem ex "image";
  let full_msgs :=
    user_msg image q :: (if bool_decide (a = []) then [] else [assistant_msg a]) in
  full_text ← render_chat processor full_msgs;
  full_images ← process_vision_info full_msgs;
  let prompt_msgs := [user_msg image q] in
  prompt_enc ← tokenize_chat processor [prompt_msgs];
  p_ids ← to_1d_ids prompt_enc processor;
  Ok (strip full_text, full_images, p_ids).

(** The label computation of [collate_fn], from [enc["input_ids"]]. *)
Definition make_labels (processor : Processor) (ids : list (list Z))
    (prompt_ids_list : list Tensor) : result (list (list Z)) :=
  let env := make_env processor in
  let tok := tokenizer processor in
  let labels := ids in
  let labels := mask_eq (pad_id env) labels in
  let labels := mask_eq (maskable tok (boi_id env)) labels in
  let labels := mask_eq (maskable tok (eoi_id env)) labels in
  let labels := mask_eq (Some LEGACY_IMAGE_TOKEN_ID) labels in
  mask_prompts 0 prompt_ids_list labels.

(** The four replacements of [make_labels], seen on one element. *)
Definition mask_token (processor : Processor) (x : Z) : Z :=
  let env := make_env processor in
  let tok := tokenizer processor in
  mask1 (Some LEGACY_IMAGE_TOKEN_ID)
    (mask1 (maskable tok (eoi_id env))
       (mask1 (maskable tok (boi_id env)) (mask1 (pad_id env) x))).

(** The ids [collate_fn] replaces wherever they occur. *)
Definition masked_id (processor : Processor) (x : Z) : bool :=
  let env := make_env processor in
  let tok := tokenizer processor in
  bool_decide (Some x = pad_id env)
  || bool_decide (Some x = maskable tok (boi_id env))
  || bool_decide (Some x = maskable tok (eoi_id env))
  || (x =? LEGACY_IMAGE_TOKEN_ID).

(** [collate_fn(batch)]: the encoding and its [labels] entry. *)
Definition collate_fn (processor : Processor) (batch : list row)
  : result (Encoding * list (list Z)) :=
  prepared ← mapM (prepare processor) batch;
  let full_texts := (fun p => p.1.1) <$> prepared in
  let full_images := (fun p => p.1.2) <$> prepared in
  let prompt_ids_list := (fun p => p.2) <$> prepared in
  enc ← proc_call processor full_texts full_images;
  labels ← make_labels processor (input_ids enc) prompt_ids_list;
  Ok (enc, labels).

(** The prompt length [collate_fn] measures for one example. *)
Definition prompt_length (processor : Processor) (ex : row) : result nat :=
  p ← prepare processor ex; Ok (numel p.2).

End Collate.
End Collate.

(** ** The dataset steps of [main] *)

Module Data.

(** What the [datasets] library brings: the permutation [shuffle] draws
    from a seed, and the default of [shard]'s [contiguous] argument
    (it changed between releases). *)
Class DatasetsLib : Type := mkDatasetsLib {
  permutation : Z -> nat -> list nat;
  contiguous_default : bool;
}.

(** [range(n)] *)
Definition range (n : Z) : list nat := seq 0 (Z.to_nat n).

(** [np.arange(start, stop, step)] for a positive step. *)
Definition arange (start stop step : Z) : list nat :=
  (fun k => Z.to_nat (start + Z.of_nat k * step))
    <$> seq 0 (Z.to_nat ((stop - start + step - 1) / step)).

(** What [select] is given: a Python [range(start, stop)] or an array
    of indices. *)
Inductive index_spec : Type :=
  | Range (start : nat) (stop : Z)
  | Indices (l : list nat).

Definition elements (indices : index_spec) : list nat :=
  match indices with
  | Range start stop => seq start (Z.to_nat (stop - Z.of_nat start))
  | Indices l => l
  end.

(** What [shard] hands to [select] for a dataset of [len] rows. *)
Definition shard_spec (len num_shards index : Z) (contiguous : bool)
  : index_spec :=
  if contiguous then
    let div := len / num_shards in
    let mod_ := len mod num_shards in
    let start := div * index + Z.min index mod_ in
    let stop := start + div + (if index <? mod_ then 1 else 0) in
    Range (Z.to_nat start) stop
  else Indices (arange index len num_shards).

(** The indices [shard] selects out of [len] rows. *)
Definition shard_indices (len num_shards index : Z) (contiguous : bool)
  : list nat :=
  elements (shard_spec len num_shards index contiguous).

(** The positions of the subset that rank [rank] keeps after the
    [if world_size > 1] step. *)
Definition rank_indices `{DatasetsLib} (len world_size rank : Z) : list nat :=
  if 1 <? world_size
  then shard_indices len world_size rank contiguous_default
  else range len.

(** [_check_valid_indices_value(index, size)] *)
Definition check_valid_indices_value (index size : Z) : result unit :=
  if ((index <? 0) && (index + size <? 0)) || (size <=? index)
  then Raise IndexError else Ok tt.

Section Dataset.
Context {A : Type} `{DatasetsLib}.

(** [ds._select_contiguous(start, length)]: an empty dataset is returned
    as it is; otherwise the first and the last index are checked, also
    for an empty slice. *)
Definition select_contiguous (ds : list A) (start length : Z)
  : result (list A) :=
  if (List.length ds =? 0)%nat then Ok ds
  else
    _ ← check_valid_indices_value start (Z.of_nat (List.length ds));
    _ ← check_valid_indices_value (start + length - 1)
          (Z.of_nat (List.length ds));
    Ok (take (Z.to_nat length) (drop (Z.to_nat start) ds)).

(** [ds._select_with_indices_mapping(indices)] *)
Definition select_with_indices_mapping (ds : list A) (indices : list nat)
  : result (list A) :=
  if (List.length ds =? 0)%nat then Ok ds
  else
    match indices with
    | [] => select_contiguous ds 0 0
    | i :: _ =>
        _ ← check_valid_indices_value (Z.of_nat (foldr Nat.max 0%nat indices))
              (Z.of_nat (List.length ds));
        _ ← check_valid_indices_value (Z.of_nat (foldr Nat.min i indices))
              (Z.of_nat (List.length ds));
        Ok (omap (fun i => ds !! i) indices)
    end.

(** [ds.select(indices)]: a range with [stop >= start] is sliced, every
    other input gets an indices mapping. *)
Definition select (ds : list A) (indices : index_spec) : result (list A) :=
  match indices with
  | Range start stop =>
      if Z.of_nat start <=? stop
      then select_contiguous ds (Z.of_nat start) (stop - Z.of_nat start)
      else select_with_indices_mapping ds (elements indices)
  | Indices l => select_with_indices_mapping ds l
  end.

(** [ds.shuffle(seed=seed)] *)
Definition shuffle (ds : list A) (seed : Z) : result (list A) :=
  select ds (Indices (permutation seed (length ds))).

(** [ds.shard(num_shards, index, contiguous)] *)
Definition shard (ds : list A) (num_shards index : Z) (contiguous : bool)
  : result (list A) :=
  if negb ((0 <=? index) && (index <? num_shards))
  then Raise (ValueError "index should be in [0, num_shards-1]")
  else select ds (shard_spec (Z.of_nat (length ds)) num_shards index contiguous).

(** The subset step: [if data_args.max_train_samples is not None: ...] *)
Definition select_train (train_dataset : list A)
    (max_train_samples : option Z) (sample_strategy : string) (seed : Z)
  : result (list A) :=
  match max_train_samples with
  | Some n =>
      let max_train_samples := Z.min (Z.of_nat (length train_dataset)) n in
      if String.eqb sample_strategy "random" then
        shuffled ← shuffle train_dataset seed;
        select shuffled (Range 0 max_train_samples)
      else select train_dataset (Range 0 max_train_samples)
  | None => Ok train_dataset
  end.

(** The shard step: [if world_size > 1: ...] *)
Definition shard_train (train_dataset : list A) (world_size rank : Z)
  : result (list A) :=
  if 1 <? world_size
  then shard train_dataset world_size rank contiguous_default
  else Ok train_dataset.

(** Both steps, as one rank runs them. *)
Definition rank_dataset (train_dataset : list A)
    (max_train_samples : option Z) (sample_strategy : string) (seed : Z)
    (world_size rank : Z) : result (list A) :=
  subset ← select_train train_dataset max_train_samples sample_strategy seed;
  shard_train subset world_size rank.

End Dataset.

(** [ds.filter(pred)] with a predicate that may raise. *)
Fixpoint filterM {A} (pred : A -> result bool) (ds : list A)
  : result (list A) :=
  match ds with
  | [] => Ok []
  | x :: rest =>
      keep ← pred x;
      rest' ← filterM pred rest;
      Ok (if keep : bool then x :: rest' else rest')
  end.

(** The train dataset one rank hands to the trainer. *)
Definition train_dataset_of `{PixelConverter} `{DatasetsLib}
    (raw : list row) (max_train_samples : option Z)
    (sample_strategy : string) (seed : Z) (world_size rank : Z)
  : result (list row) :=
  ds ← rank_dataset raw max_train_samples sample_strategy seed world_size rank;
  ds ← Normalize.normalize_split ds;
  filterM Normalize.answer_filter ds.

End Data.

(** ** Concrete instances used to run the definitions *)

Module Fixtures.

(** A converter that keeps the pixel bytes. *)
Definition keep_pixels : PixelConverter := fun _ _ d => d.

(** A [datasets] whose shuffle reverses, with strided shards, and one
    with contiguous shards. *)
Definition reversing_lib : Data.DatasetsLib :=
  {| Data.permutation := fun _ n => rev (seq 0 n);
     Data.contiguous_default := false |}.

Definition contiguous_lib : Data.DatasetsLib :=
  {| Data.permutation := fun _ n => rev (seq 0 n);
     Data.contiguous_default := true |}.

Definition rgb_image : Image :=
  {| im_mode := "RGB"; im_size := (1%nat, 1%nat); im_data := [10; 20; 30] |}.

Definition grey_image : Image :=
  {| im_mode := "L"; im_size := (1%nat, 1%nat); im_data := [7] |}.

(** A character-level tokenizer: a code point is its own id; ids 0..3 are
    pad, begin-of-image, end-of-image and unknown. *)
Definition char_convert (s : str) : option Z :=
  if bool_decide (s = lit "<pad>") then Some 0
  else if bool_decide (s = lit "<boi>") then Some 1
  else if bool_decide (s = lit "<eoi>") then Some 2
  else Some 3.

Definition char_tokenizer : Tokenizer :=
  {| pad_token := Some (lit "<pad>");
     eos_token := None;
     unk_token_id := Some 3;
     special_tokens_map :=
       {[ "boi_token" := lit "<boi>"; "eoi_token" := lit "<eoi>" ]};
     convert_tokens_to_ids := char_convert;
     tok_encode := fun s => Z.of_N <$> s |}.

(** An image renders as begin-of-image, one image placeholder,
    end-of-image. *)
Definition render_block (b : content_block) : str :=
  match b with
  | BImage _ => [1%N; 262144%N; 2%N]
  | BText s => s
  end.

Definition render_message (m : message) : str :=
  (if String.eqb (role m) "user" then lit "U:" else lit "A:")
    ++ concat (render_block <$> content m) ++ [10%N].

Definition render (msgs : list message) (add_generation_prompt : bool) : str :=
  concat (render_message <$> msgs)
    ++ (if add_generation_prompt then lit "A:" else []).

Definition pad_rows (rows : list (list Z)) : list (list Z) :=
  let width := foldr Nat.max 0%nat (length <$> rows) in
  (fun r => r ++ replicate (width - length r) 0) <$> rows.

Definition char_processor : Processor :=
  {| tokenizer := char_tokenizer;
     render_chat := fun msgs => Ok (render msgs false);
     tokenize_chat := fun batch =>
       let rows := pad_rows ((fun msgs => Z.of_N <$> render msgs true) <$> batch) in
       Ok (OutEncoding (IdsTensor
             {| shape := [length rows; foldr Nat.max 0%nat (length <$> rows)];
                data := concat rows |}));
     proc_call := fun texts images =>
       let rows := pad_rows ((fun s : str => Z.of_N <$> s) <$> texts) in
       Ok {| input_ids := rows;
             attention_mask := (fun r : list Z => (fun _ : Z => 1) <$> r) <$> rows;
             pixel_values := (fun ims : list Image => concat (im_data <$> ims)) <$> images |} |}.

Definition example (q a : string) : row :=
  {[ "image" := VImage rgb_image; "question" := VStr (lit q);
     "answer" := VStr (lit a) ]}.

(** A batch of two: an answered example and one whose answer is blank. *)
Definition demo_batch : list row := [example "q" "cat"; example "what?" " "].

Definition demo_enc : Encoding :=
  {| input_ids :=
       [[85; 58; 1; 262144; 2; 113; 10; 65; 58; 99; 97; 116];
        [85; 58; 1; 262144; 2; 119; 104; 97; 116; 63; 0; 0]];
     attention_mask :=
       [[1; 1; 1; 1; 1; 1; 1; 1; 1; 1; 1; 1];
        [1; 1; 1; 1; 1; 1; 1; 1; 1; 1; 1; 1]];
     pixel_values := [[10; 20; 30]; [10; 20; 30]] |}.

Definition demo_labels : list (list Z) :=
  [[-100; -100; -100; -100; -100; -100; -100; -100; -100; 99; 97; 116];
   [-100; -100; -100; -100; -100; -100; -100; -100; -100; -100; -100; -100]].

(** A batch of two answered examples; the row of the second is padded
    behind its answer. *)
Definition padded_batch : list row := [example "q" "cat"; example "q" "a"].

Definition padded_enc : Encoding :=
  {| input_ids :=
       [[85; 58; 1; 262144; 2; 113; 10; 65; 58; 99; 97; 116];
        [85; 58; 1; 262144; 2; 113; 10; 65; 58; 97; 0; 0]];
     attention_mask :=
       [[1; 1; 1; 1; 1; 1; 1; 1; 1; 1; 1; 1];
        [1; 1; 1; 1; 1; 1; 1; 1; 1; 1; 1; 1]];
     pixel_values := [[10; 20; 30]; [10; 20; 30]] |}.

Definition padded_labels : list (list Z) :=
  [[-100; -100; -100; -100; -100; -100; -100; -100; -100; 99; 97; 116];
   [-100; -100; -100; -100; -100; -100; -100; -100; -100; 97; -100; -100]].




(** A single example whose answer is one space. *)
Definition blank_batch : list row := [example "q" " "].

Definition blank_enc : Encoding :=
  {| input_ids := [[85; 58; 1; 262144; 2; 113]];
     attention_mask := [[1; 1; 1; 1; 1; 1]];
     pixel_values := [[10; 20; 30]] |}.

Definition blank_labels : list (list Z) :=
  [[-100; -100; -100; -100; -100; -100]].

(** A [query]/[label] row with a [None] query and an empty label list. *)
Definition degenerate_row : row :=
  {[ "image" := VImage grey_image; "query" := VNone; "label" := VList [] ]}.

(** A [query]/[label] row whose query is a number. *)
Definition numeric_query_row : row :=
  {[ "image" := VImage rgb_image; "query" := VInt 5;
     "label" := VList [VStr (lit "x")] ]}.

(** Two [query]/[label] rows whose labels are lists of numbers, the
    second list empty. *)
Definition numeric_label_rows : list row :=
  [ {[ "image" := VImage rgb_image; "query" := VStr (lit "q");
       "label" := VList [VInt 5] ]};
    {[ "image" := VImage rgb_image; "query" := VStr (lit "q");
       "label" := VList [] ]} ].

(** A row with a question but neither image nor answer. *)
Definition question_only_row : row := {[ "question" := VStr (lit "q") ]}.

(** A row carrying both column sets. *)
Definition both_schemas_row : row :=
  {[ "image" := VImage rgb_image; "query" := VStr (lit "q1");
     "label" := VList [VStr (lit "a1")]; "question" := VStr (lit "q2");
     "answer" := VStr (lit "a2") ]}.

(** A raw dataset: two answered rows and one with a blank answer. *)
Definition raw_rows : list row :=
  [example " q0 " "a0"; example "q1" "  "; example "q2" " a2"].

Definition normalized_rows : list row :=
  [example "q0" "a0"; example "q1" ""; example "q2" "a2"].

(** The character-level tokenizer without pad token: the newline that
    ends every turn is its end-of-sequence token. *)
Definition eos_tokenizer : Tokenizer :=
  {| pad_token := None;
     eos_token := Some [10%N];
     unk_token_id := Some 3;
     special_tokens_map := special_tokens_map char_tokenizer;
     convert_tokens_to_ids := fun s =>
       if bool_decide (s = [10%N]) then Some 10 else char_convert s;
     tok_encode := tok_encode char_tokenizer |}.

Definition eos_processor : Processor :=
  {| tokenizer := eos_tokenizer;
     render_chat := render_chat char_processor;
     tokenize_chat := tokenize_chat char_processor;
     proc_call := proc_call char_processor |}.

(** A processor that returns one row less than it was given texts. *)
Definition short_processor : Processor :=
  {| tokenizer := char_tokenizer;
     render_chat := render_chat char_processor;
     tokenize_chat := tokenize_chat char_processor;
     proc_call := fun texts images =>
       enc ← proc_call char_processor texts images;
       Ok {| input_ids := drop 1 (input_ids enc);
             attention_mask := drop 1 (attention_mask enc);
             pixel_values := pixel_values enc |} |}.

(** What [prepare] returns on the two examples of [demo_batch]. *)
Definition demo_prepared : list (str * list Image * Tensor) :=
  [(Z.to_N <$> [85; 58; 1; 262144; 2; 113; 10; 65; 58; 99; 97; 116],
    [rgb_image],
    {| shape := [9%nat]; data := [85; 58; 1; 262144; 2; 113; 10; 65; 58] |});
   (Z.to_N <$> [85; 58; 1; 262144; 2; 119; 104; 97; 116; 63],
    [rgb_image],
    {| shape := [13%nat];
       data := [85; 58; 1; 262144; 2; 119; 104; 97; 116; 63; 10; 65; 58] |})].

Definition short_enc : Encoding :=
  {| input_ids := [[85; 58; 1; 262144; 2; 119; 104; 97; 116; 63; 0; 0]];
     attention_mask := [[1; 1; 1; 1; 1; 1; 1; 1; 1; 1; 1; 1]];
     pixel_values := [[10; 20; 30]; [10; 20; 30]] |}.

End Fixtures.

(** ** The rest of [main]: LoRA targets and the sample metric *)

Module Lora.

(** [s.split(sep)] for a separator of one character. *)
Fixpoint split (sep : N) (s : str) : list str :=
  match s with
  | [] => [[]]
  | c :: s' =>
      if (c =? sep)%N then [] :: split sep s'
      else match split sep s' with
           | piece :: rest => (c :: piece) :: rest
           | [] => [[c]]
           end
  end.

Definition comma : N := 44%N.

(** What [target_modules] holds when it reaches [LoraConfig]. *)
Inductive targets : Type :=
  | TNone
  | TName (s : str)
  | TList (l : list str).

(** [if target_modules != "all-linear" and isinstance(target_modules, str):
     target_modules = [s.strip() for s in target_modules.split(",") if s.strip()]] *)
Definition parse_target_modules (lora_target_modules : option str) : targets :=
  match lora_target_modules with
  | None => TNone
  | Some s =>
      if bool_decide (s = lit "all-linear") then TName s
      else TList (strip <$> filter (fun p => strip p <> []) (split comma s))
  end.

(** [",".join(names)] *)
Fixpoint join (names : list str) : str :=
  match names with
  | [] => []
  | [n] => n
  | n :: rest => n ++ comma :: join rest
  end.

End Lora.

Module Metrics.

(** [metrics["train_samples"]], from [data_args.max_train_samples] and
    [len(train_dataset)] of the rank. *)
Definition train_samples (max_train_samples : option Z) (len_train : nat) : Z :=
  let max_train_samples := default (Z.of_nat len_train) max_train_samples in
  Z.min max_train_samples (Z.of_nat len_train).

End Metrics.

(** ** [process_vision_info] on arbitrary message dicts *)

Module Vision.

(** The Python objects a chat message is built from. *)
#[warnings="-register-all"]
Inductive pyobj : Type :=
  | JNone
  | JStr (s : str)
  | JInt (n : Z)
  | JImage (im : Image)
  | JDict (d : list (string * pyobj))
  | JList (l : list pyobj).

(** [d.get(k)] on the items of a dict. *)
Fixpoint dict_get (d : list (string * pyobj)) (k : string) : option pyobj :=
  match d with
  | [] => None
  | (k', v) :: d' => if String.eqb k' k then Some v else dict_get d' k
  end.

Definition is_image_elem (d : list (string * pyobj)) : bool :=
  match dict_get d "image" with
  | Some _ => true
  | None =>
      match dict_get d "type" with
      | Some (JStr s) => bool_decide (s = lit "image")
      | _ => false
      end
  end.

Section Vision.
Context `{PixelConverter}.

(** One [elem] of a content list. *)
Definition vision_of_elem (elem : pyobj) : result (list Image) :=
  match elem with
  | JDict d =>
      if is_image_elem d then
        match default (JDict d) (dict_get d "image") with
        | JImage im => Ok [convert im "RGB"]
        | _ => Raise AttributeError
        end
      else Ok []
  | _ => Ok []
  end.

(** One message: [content = msg.get("content", [])], wrapped in a list
    when it is not one. *)
Definition vision_of_message (msg : list (string * pyobj))
  : result (list Image) :=
  let content := default (JList []) (dict_get msg "content") in
  let content := match content with JList l => l | c => [c] end in
  blocks ← mapM vision_of_elem content;
  Ok (concat blocks).

Definition process_vision_info (messages : list (list (string * pyobj)))
  : result (list Image) :=
  imgs ← mapM vision_of_message messages;
  Ok (concat imgs).

End Vision.

(** The dicts [collate_fn] builds. *)
Fixpoint obj_of_value (v : value) : pyobj :=
  match v with
  | VNone => JNone
  | VStr s => JStr s
  | VInt n => JInt n
  | VList l => JList (map obj_of_value l)
  | VImage im => JImage im
  end.

Definition obj_of_block (b : content_block) : pyobj :=
  match b with
  | BImage image =>
      JDict [("type", JStr (lit "image")); ("image", obj_of_value image)]
  | BText text => JDict [("type", JStr (lit "text")); ("text", JStr text)]
  end.

Definition obj_of_message (m : message) : list (string * pyobj) :=
  [("role", JStr (lit (role m)));
   ("content", JList (obj_of_block <$> content m))].

End Vision.

Module VisionFixtures.

(** Message dicts: one user turn with an image and a text, as a chat
    template receives them. *)
Definition user_dict : list (string * Vision.pyobj) :=
  [("role", Vision.JStr (lit "user"));
   ("content", Vision.JList
      [Vision.JDict [("type", Vision.JStr (lit "image"));
                     ("image", Vision.JImage Fixtures.grey_image)];
       Vision.JDict [("type", Vision.JStr (lit "text"));
                     ("text", Vision.JStr (lit "q"))]])].

End VisionFixtures.

(** * Properties *)

(** ** Strings *)

Section StripFacts.

Lemma lstrip_idem (s : str) : lstrip (lstrip s) = lstrip s.
Proof.
  induction s as [|c s IH]; [done|].
  simpl. destruct (isspace c) eqn:E; [done|]. simpl. by rewrite E.
Qed.

Lemma lstrip_app_keep (s u : str) :
  lstrip s ≠ [] -> lstrip (s ++ u) = lstrip s ++ u.
Proof.
  induction s as [|c s IH]; [done|].
  simpl. destruct (isspace c); [exact IH | done].
Qed.

Lemma lstrip_nil_app (s u : str) :
  lstrip s = [] -> lstrip (s ++ u) = lstrip u.
Proof.
  induction s as [|c s IH]; [done|].
  simpl. destruct (isspace c); [exact IH | done].
Qed.

Lemma rstrip_idem (s : str) : rstrip (rstrip s) = rstrip s.
Proof. unfold rstrip. by rewrite rev_involutive, lstrip_idem. Qed.

(** Stripping the right end leaves a left-stripped string left-stripped. *)
Lemma lstrip_rstrip_fixed (s : str) :
  lstrip s = s -> lstrip (rstrip s) = rstrip s.
Proof.
  unfold rstrip. intros Hs.
  induction s as [|c s IH] using rev_ind; [done|].
  rewrite rev_app_distr. simpl.
  destruct (isspace c) eqn:Ec.
  - destruct s as [|d s'].
    + done.
    + apply IH.
      destruct (decide (lstrip (d :: s') = [])) as [Hn|Hn].
      * rewrite (lstrip_nil_app _ _ Hn) in Hs. simpl in Hs. rewrite Ec in Hs.
        by destruct s'.
      * rewrite (lstrip_app_keep _ _ Hn) in Hs. by apply app_inv_tail in Hs.
  - simpl. rewrite rev_involutive. exact Hs.
Qed.

Lemma strip_idem (s : str) : strip (strip s) = strip s.
Proof.
  unfold strip.
  rewrite (lstrip_rstrip_fixed (lstrip s) (lstrip_idem s)).
  apply rstrip_idem.
Qed.

Lemma strip_nil : strip [] = [].
Proof. reflexivity. Qed.

End StripFacts.

(** ** The exception monad *)

Lemma bind_Ok {A B} (m : result A) (f : A -> result B) (b : B) :
  (m ≫= f) = Ok b -> exists a, m = Ok a /\ f a = Ok b.
Proof. destruct m as [a|e]; [eauto | discriminate]. Qed.

Section ResultFacts.
Context {A B : Type}.

Lemma mapM_Ok_length (f : A -> result B) (l : list A) (k : list B) :
  mapM f l = Ok k -> length k = length l.
Proof.
  revert k. induction l as [|x l IH]; intros k Hk; simpl in Hk.
  - by inversion Hk.
  - apply bind_Ok in Hk as (y & _ & Hk).
    apply bind_Ok in Hk as (k' & Hk' & Hk).
    inversion Hk; subst. simpl. f_equal. by apply IH.
Qed.

Lemma mapM_Ok_lookup (f : A -> result B) (l : list A) (k : list B) i x :
  mapM f l = Ok k -> l !! i = Some x ->
  exists y, k !! i = Some y /\ f x = Ok y.
Proof.
  revert k i. induction l as [|z l IH]; intros k i Hk Hi; [done|].
  simpl in Hk.
  apply bind_Ok in Hk as (y & Hy & Hk).
  apply bind_Ok in Hk as (k' & Hk' & Hk).
  inversion Hk; subst.
  destruct i as [|i]; simpl in *.
  - inversion Hi; subst. eauto.
  - eauto.
Qed.

(** One failing element makes the whole traversal fail. *)
Lemma mapM_Raise_elem (f : A -> result B) (l : list A) x :
  x ∈ l -> is_raise (f x) = true -> exists e, mapM f l = Raise e.
Proof.
  induction 1 as [x l | x z l _ IH]; intros Hx; simpl.
  - destruct (f x); [discriminate | eauto].
  - destruct (f z); simpl; [|eauto].
    destruct (IH Hx) as [e ->]. eauto.
Qed.

(** A failing traversal failed on one of its elements. *)
Lemma mapM_Raise_inv (f : A -> result B) (l : list A) (e : exn) :
  mapM f l = Raise e -> exists x, x ∈ l /\ f x = Raise e.
Proof.
  induction l as [|z l IH]; simpl; [discriminate|].
  destruct (f z) as [y|e'] eqn:Hz; simpl.
  - destruct (mapM f l) as [k|e''] eqn:Hk; simpl; [discriminate|].
    intros [= <-]. destruct (IH eq_refl) as (x & Hx & Hfx).
    exists x. split; [by right | done].
  - intros [= <-]. exists z. split; [by left | done].
Qed.

Lemma mapM_Ok_all (f : A -> result B) (l : list A) (g : A -> B) :
  (forall x, x ∈ l -> f x = Ok (g x)) -> mapM f l = Ok (g <$> l).
Proof.
  induction l as [|x l IH]; intros Hall; [done|].
  simpl. rewrite (Hall x) by left. simpl.
  rewrite IH; [done|]. intros y Hy. apply Hall. by right.
Qed.

Lemma mapM_Ok_elem (f : A -> result B) (l : list A) (k : list B) (y : B) :
  mapM f l = Ok k -> y ∈ k -> exists x, x ∈ l /\ f x = Ok y.
Proof.
  revert k. induction l as [|z l IH]; intros k Hk Hy; simpl in Hk.
  - inversion Hk; subst. by apply elem_of_nil in Hy.
  - apply bind_Ok in Hk as (y' & Hy' & Hk).
    apply bind_Ok in Hk as (k' & Hk' & Hk).
    inversion Hk; subst.
    apply elem_of_cons in Hy as [->|Hy].
    + exists z. split; [by left | done].
    + destruct (IH _ Hk' Hy) as (x & Hx & Hfx). exists x. split; [by right | done].
Qed.

End ResultFacts.

(** ** Schema normalisation *)

Section NormalizeFacts.
Context `{PixelConverter}.
Import Normalize.

Lemma convert_rgb_id (im : Image) :
  im_mode im = "RGB" -> convert im "RGB" = im.
Proof. intros Hm. unfold convert. by rewrite Hm. Qed.

Lemma convert_mode (im : Image) (m : string) : im_mode (convert im m) = m.
Proof.
  unfold convert. destruct (String.eqb (im_mode im) m) eqn:E; [|done].
  by apply String.eqb_eq.
Qed.

Lemma or_empty_strip (s : str) :
  strip_method (py_or (VStr s) (VStr [])) = Ok (strip s).
Proof. destruct s; reflexivity. Qed.

(** C4: re-normalising an already normalised record (RGB image, stripped
    question and answer) returns that very record. *)
Theorem normalize_idempotent (im : Image) (q a : str) :
  im_mode im = "RGB" -> strip q = q -> strip a = a ->
  _map {[ "image" := VImage im; "question" := VStr q; "answer" := VStr a ]}
  = Ok {[ "image" := VImage im; "question" := VStr q; "answer" := VStr a ]}.
Proof.
  intros Hm Hq Ha. unfold _map, get, contains, getitem.
  simplify_map_eq. simpl.
  rewrite !or_empty_strip. simpl.
  rewrite convert_rgb_id by done. simpl.
  by rewrite Hq, Ha.
Qed.

(** When the label text is already stripped the two schemas agree. *)
Lemma schema_variants_agree_stripped (im : Image) (x x2 : str) :
  strip x2 = x2 ->
  _map {[ "image" := VImage im; "query" := VStr x; "label" := VList [VStr x2] ]}
  = _map {[ "image" := VImage im; "question" := VStr x; "answer" := VStr x2 ]}.
Proof.
  intros Hx2. unfold _map, get, contains, getitem.
  simplify_map_eq. simpl.
  rewrite !or_empty_strip. simpl. by rewrite Hx2.
Qed.

(** C5, evaluated at label [" x"] against answer " x": the
    [query]/[label] branch keeps the label text as it is, the
    [question]/[answer] branch strips it, so the two outputs differ. *)
Theorem schema_variants_disagree :
  _map {[ "image" := VImage Fixtures.rgb_image; "query" := VStr (lit "q");
          "label" := VList [VStr (lit " x")] ]}
  = Ok {[ "image" := VImage Fixtures.rgb_image; "question" := VStr (lit "q");
          "answer" := VStr (lit " x") ]}
  /\
  _map {[ "image" := VImage Fixtures.rgb_image; "question" := VStr (lit "q");
          "answer" := VStr (lit " x") ]}
  = Ok {[ "image" := VImage Fixtures.rgb_image; "question" := VStr (lit "q");
          "answer" := VStr (lit "x") ]}
  /\
  _map {[ "image" := VImage Fixtures.rgb_image; "query" := VStr (lit "q");
          "label" := VList [VStr (lit " x")] ]}
  <> _map {[ "image" := VImage Fixtures.rgb_image; "question" := VStr (lit "q");
             "answer" := VStr (lit " x") ]}.
Proof.
  assert (forall a b : row, a !! "answer" <> b !! "answer" -> Ok a <> Ok b) as Hne.
  { intros a b Hab Heq. inversion Heq. congruence. }
  split; [reflexivity|]. split; [reflexivity|].
  unfold _map, get, contains, getitem. simplify_map_eq. simpl.
  apply Hne. simplify_map_eq. discriminate.
Qed.

(** C8: a row without image, or with neither column set, makes [_map]
    raise the matching [ValueError], and [normalize_split] of any dataset
    holding such a row raises instead of returning rows. *)
Theorem normalize_fails_fast (ds : list row) (ex : row) :
  ex ∈ ds ->
  image_missing ex = true \/ known_schema ex = false ->
  _map ex = Raise (if image_missing ex then missing_image else unknown_schema)
  /\ (exists e, normalize_split ds = Raise e)
  /\ (forall out, normalize_split ds <> Ok out).
Proof.
  intros Hin Hbad.
  assert (_map ex = Raise (if image_missing ex then missing_image
                           else unknown_schema)) as Hex.
  { unfold _map, image_missing, known_schema in *.
    destruct (is_none (get ex "image")) eqn:Hi; [done|].
    destruct Hbad as [|Hs]; [done|].
    apply orb_false_iff in Hs as [-> ->]. done. }
  assert (exists e, normalize_split ds = Raise e) as [e He].
  { unfold normalize_split.
    destruct (mapM_Raise_elem _map ds ex Hin) as [e ->]; [by rewrite Hex|].
    simpl. eauto. }
  split; [done|]. split; [eauto|]. intros out. by rewrite He.
Qed.

End NormalizeFacts.

Lemma normalize_idempotent_witness :
  im_mode Fixtures.rgb_image = "RGB" /\
  strip (lit "q") = lit "q" /\ strip (lit "a") = lit "a" /\
  @Normalize._map Fixtures.keep_pixels (Fixtures.example "q" "a")
  = Ok (Fixtures.example "q" "a").
Proof.
  split; [reflexivity|]. split; [reflexivity|]. split; [reflexivity|].
  apply (@normalize_idempotent Fixtures.keep_pixels
           Fixtures.rgb_image (lit "q") (lit "a")); reflexivity.
Defined.

Lemma normalize_fails_fast_witness :
  exists e, @Normalize.normalize_split Fixtures.keep_pixels
    [Fixtures.example "q" "a"; Fixtures.question_only_row] = Raise e.
Proof.
  refine (proj1 (proj2 (@normalize_fails_fast Fixtures.keep_pixels
    [Fixtures.example "q" "a"; Fixtures.question_only_row]
    Fixtures.question_only_row _ _))).
  - apply list_elem_of_In. simpl. tauto.
  - left. reflexivity.
Defined.

(** ** Shape normalisation *)

Section ToIdsFacts.
Context `{PixelConverter}.
Import Collate.

Lemma numel_squeeze0 (t : Tensor) : numel (squeeze0 t) = numel t.
Proof.
  unfold squeeze0, numel. destruct t as [[|[|[|n]] sh] d]; simpl; lia.
Qed.

Lemma numel_view_flat (t : Tensor) : numel (view_flat t) = numel t.
Proof. unfold view_flat, numel. simpl. lia. Qed.

Lemma data_squeeze0 (t : Tensor) : data (squeeze0 t) = data t.
Proof. unfold squeeze0. by destruct t as [[|[|[|n]] sh] d]. Qed.

(** On a tensor the second block always succeeds and keeps the elements
    and their count. *)
Lemma squeeze_ids_tensor (t0 : Tensor) :
  exists t, squeeze_ids (IdsTensor t0) = Ok t
    /\ data t = data t0 /\ numel t = numel t0.
Proof.
  unfold squeeze_ids.
  destruct (ndim t0 =? 2)%nat; [|destruct (2 <? ndim t0)%nat];
    eexists; (split; [reflexivity|]);
    rewrite ?data_squeeze0, ?numel_squeeze0, ?numel_view_flat; done.
Qed.

(** A string is tokenized to (1, T) and comes back as (T,). *)
Lemma to_1d_ids_str (s : str) (processor : Processor) :
  to_1d_ids (OutStr s) processor
  = Ok {| shape := [length (tok_encode (tokenizer processor) s)];
          data := tok_encode (tokenizer processor) s |}.
Proof. reflexivity. Qed.

End ToIdsFacts.

(** [torch.as_tensor] on nested lists: a shape with a zero is not
    filled, a ragged list and an integer beyond int64 are refused. *)
Example as_tensor_examples :
  as_tensor (NList [NList []; NList [NInt 1]])
  = Ok {| shape := [2; 0]%nat; data := [] |}
  /\ as_tensor (NList [NList [NInt 1; NInt 2]; NList [NInt 3]])
     = Raise (ValueError "expected sequence of length 2 at dim 1 (got 1)")
  /\ as_tensor (NList [NInt (2 ^ 63)])
     = Raise (RuntimeError "Overflow when unpacking long")
  /\ as_tensor (NList [NList [NInt 1; NInt 2]; NList [NInt 3; NInt 4]])
     = Ok {| shape := [2; 2]%nat; data := [1; 2; 3; 4] |}.
Proof. repeat split; vm_compute; reflexivity. Qed.


(** ** Label masking *)

Section CollateFacts.
Context `{PixelConverter}.
Import Collate.

Lemma mask_prefix_length (n : nat) (r : list Z) :
  length (mask_prefix n r) = length r.
Proof.
  unfold mask_prefix. rewrite length_app, length_replicate, length_drop. lia.
Qed.

Lemma mask_prefix_take (n : nat) (r : list Z) :
  take n (mask_prefix n r) = replicate (Nat.min n (length r)) IGNORE_INDEX.
Proof.
  unfold mask_prefix.
  destruct (decide (n <= length r)%nat) as [Hle|Hgt].
  - rewrite Nat.min_l by done.
    rewrite take_app_length'; [done | by rewrite length_replicate].
  - rewrite Nat.min_r by lia. rewrite drop_ge by lia. rewrite app_nil_r.
    apply take_ge. rewrite length_replicate. lia.
Qed.

Lemma mask_prefix_lookup_lt (n : nat) (r : list Z) (j : nat) (v : Z) :
  (j < n)%nat -> mask_prefix n r !! j = Some v -> v = IGNORE_INDEX.
Proof.
  intros Hj Hv.
  assert (take n (mask_prefix n r) !! j = Some v) as Ht
    by by rewrite lookup_take_lt.
  rewrite mask_prefix_take in Ht.
  by apply lookup_replicate in Ht as [-> _].
Qed.

Lemma mask_prefix_lookup_ge (n : nat) (r : list Z) (j : nat) :
  (n <= j)%nat -> mask_prefix n r !! j = r !! j.
Proof.
  intros Hj. unfold mask_prefix.
  destruct (decide (n <= length r)%nat) as [Hle|Hgt].
  - rewrite Nat.min_l by done.
    rewrite lookup_app_r; rewrite length_replicate; [|done].
    rewrite lookup_drop. f_equal. lia.
  - rewrite Nat.min_r by lia. rewrite drop_ge by lia. rewrite app_nil_r.
    rewrite !lookup_ge_None_2; [done | lia | rewrite length_replicate; lia].
Qed.

(** What the prompt loop leaves in each row. *)
Lemma mask_prompts_spec (ps : list Tensor) :
  forall (i : nat) (labels out : list (list Z)),
  mask_prompts i ps labels = Ok out ->
  length out = length labels
  /\ (forall k p, ps !! k = Some p ->
        exists r0, labels !! (i + k)%nat = Some r0
          /\ out !! (i + k)%nat = Some (mask_prefix (numel p) r0))
  /\ (forall j, (j < i \/ i + length ps <= j)%nat -> out !! j = labels !! j).
Proof.
  induction ps as [|p ps IH]; intros i labels out Hout; simpl in Hout.
  - inversion Hout; subst. split; [done|]. split; [|done].
    intros k q Hk. by rewrite lookup_nil in Hk.
  - apply bind_Ok in Hout as (labels' & Hrow & Hout).
    unfold mask_row_prefix in Hrow.
    destruct (labels !! i) as [r|] eqn:Hr; [|discriminate].
    inversion Hrow; subst labels'; clear Hrow.
    destruct (IH _ _ _ Hout) as (Hlen & Hin & Hrest).
    split; [by rewrite Hlen, length_insert|]. split.
    + intros [|k] q Hk; simpl in Hk.
      * inversion Hk; subst q. rewrite Nat.add_0_r. exists r. split; [done|].
        rewrite Hrest by lia.
        apply list_lookup_insert_eq. by eapply lookup_lt_Some.
      * destruct (Hin k q Hk) as (r0 & Hr0 & Ho).
        rewrite list_lookup_insert_ne in Hr0 by lia.
        exists r0. by replace (i + S k)%nat with (S i + k)%nat by lia.
    + intros j Hj. simpl in Hj. rewrite Hrest by lia.
      apply list_lookup_insert_ne. lia.
Qed.

(** The prompt loop succeeds when every prompt has its row. *)
Lemma mask_prompts_Ok (ps : list Tensor) :
  forall (i : nat) (labels : list (list Z)),
  (i + length ps <= length labels)%nat ->
  exists out, mask_prompts i ps labels = Ok out.
Proof.
  induction ps as [|p ps IH]; intros i labels Hlen; simpl in *; [eauto|].
  unfold mask_row_prefix.
  destruct (lookup_lt_is_Some_2 labels i) as [r Hr]; [lia|].
  rewrite Hr. simpl. apply IH. rewrite length_insert. lia.
Qed.

Lemma mask1_ignore (o : option Z) : mask1 o IGNORE_INDEX = IGNORE_INDEX.
Proof. destruct o as [k|]; unfold mask1; [|done]. by destruct (IGNORE_INDEX =? k). Qed.

Lemma mask1_hit (x : Z) : mask1 (Some x) x = IGNORE_INDEX.
Proof. simpl. by rewrite Z.eqb_refl. Qed.

Lemma mask1_miss (o : option Z) (x : Z) : Some x <> o -> mask1 o x = x.
Proof.
  destruct o as [k|]; simpl; [|done]. intros Hne.
  destruct (x =? k) eqn:E; [|done]. apply Z.eqb_eq in E. congruence.
Qed.

Lemma mask1_cases (o : option Z) (x : Z) :
  mask1 o x = x \/ mask1 o x = IGNORE_INDEX.
Proof. destruct o as [k|]; unfold mask1; [|auto]. destruct (x =? k); auto. Qed.

Lemma mask_token_masked (processor : Processor) (x : Z) :
  masked_id processor x = true -> mask_token processor x = IGNORE_INDEX.
Proof.
  unfold masked_id, mask_token.
  set (o1 := pad_id (make_env processor)).
  set (o2 := maskable (tokenizer processor) (boi_id (make_env processor))).
  set (o3 := maskable (tokenizer processor) (eoi_id (make_env processor))).
  intros Hm.
  repeat (apply orb_true_iff in Hm as [Hm|Hm]);
    try apply bool_decide_eq_true in Hm; try apply Z.eqb_eq in Hm.
  - by rewrite <- Hm, mask1_hit, !mask1_ignore.
  - destruct (mask1_cases o1 x) as [-> | ->].
    + by rewrite <- Hm, mask1_hit, !mask1_ignore.
    + by rewrite !mask1_ignore.
  - destruct (mask1_cases o1 x) as [-> | ->];
      [destruct (mask1_cases o2 x) as [-> | ->]|];
      rewrite ?mask1_ignore; try done.
    by rewrite <- Hm, mask1_hit, !mask1_ignore.
  - destruct (mask1_cases o1 x) as [-> | ->];
      [destruct (mask1_cases o2 x) as [-> | ->];
       [destruct (mask1_cases o3 x) as [-> | ->]|]|];
      rewrite ?mask1_ignore; try done.
    subst x. apply mask1_hit.
Qed.

Lemma mask_token_kept (processor : Processor) (x : Z) :
  masked_id processor x = false -> mask_token processor x = x.
Proof.
  unfold masked_id, mask_token. intros Hm.
  apply orb_false_iff in Hm as [Hm Hlegacy].
  apply orb_false_iff in Hm as [Hm Heoi].
  apply orb_false_iff in Hm as [Hpad Hboi].
  apply bool_decide_eq_false in Hpad, Hboi, Heoi.
  apply Z.eqb_neq in Hlegacy.
  rewrite (mask1_miss (pad_id _)) by done.
  rewrite (mask1_miss (maskable _ (boi_id _))) by done.
  rewrite (mask1_miss (maskable _ (eoi_id _))) by done.
  apply mask1_miss. congruence.
Qed.

End CollateFacts.

Section CollateRows.
Context `{PixelConverter}.
Import Collate.

Lemma mask_eq_all (processor : Processor) (ids : list (list Z)) :
  mask_eq (Some LEGACY_IMAGE_TOKEN_ID)
    (mask_eq (maskable (tokenizer processor) (eoi_id (make_env processor)))
       (mask_eq (maskable (tokenizer processor) (boi_id (make_env processor)))
          (mask_eq (pad_id (make_env processor)) ids)))
  = map (map (mask_token processor)) ids.
Proof.
  unfold mask_eq. rewrite !map_map. apply map_ext. intros r.
  rewrite !map_map. by apply map_ext.
Qed.

Lemma make_labels_eq (processor : Processor) (ids : list (list Z))
    (ps : list Tensor) :
  make_labels processor ids ps
  = mask_prompts 0 ps (map (map (mask_token processor)) ids).
Proof. unfold make_labels. cbv zeta. by rewrite mask_eq_all. Qed.

(** Every row of [labels], in terms of the row of [input_ids]. *)
Lemma collate_fn_rows (processor : Processor) (batch : list row)
    (enc : Encoding) (labels : list (list Z)) :
  collate_fn processor batch = Ok (enc, labels) ->
  length labels = length (input_ids enc)
  /\ (length batch <= length (input_ids enc))%nat
  /\ (forall i ex, batch !! i = Some ex ->
        exists n r0, prompt_length processor ex = Ok n
          /\ input_ids enc !! i = Some r0
          /\ labels !! i = Some (mask_prefix n (mask_token processor <$> r0)))
  /\ (forall i, (length batch <= i)%nat ->
        labels !! i = (fmap (mask_token processor)) <$> input_ids enc !! i).
Proof.
  unfold collate_fn. intros Hc.
  apply bind_Ok in Hc as (prepared & Hprep & Hc).
  apply bind_Ok in Hc as (enc' & Henc & Hc).
  apply bind_Ok in Hc as (labels' & Hlab & Hc).
  inversion Hc; subst enc' labels'; clear Hc.
  rewrite make_labels_eq in Hlab.
  destruct (mask_prompts_spec _ _ _ _ Hlab) as (Hlen & Hin & Hrest).
  rewrite length_map in Hlen.
  pose proof (mapM_Ok_length _ _ _ Hprep) as Hplen.
  split; [done|]. split; [|split].
  - destruct (decide (length batch = 0%nat)) as [Hz|Hnz]; [lia|].
    destruct (lookup_lt_is_Some_2 prepared (length batch - 1)) as [y Hy];
      [lia|].
    destruct (Hin (length batch - 1)%nat y.2) as (r0 & Hr0 & _).
    { by rewrite list_lookup_fmap, Hy. }
    apply lookup_lt_Some in Hr0. rewrite length_map in Hr0.
    simpl in Hr0. lia.
  - intros i ex Hi.
    destruct (mapM_Ok_lookup _ _ _ _ _ Hprep Hi) as (y & Hy & Hex).
    destruct (Hin i y.2) as (r0 & Hr0 & Ho).
    { by rewrite list_lookup_fmap, Hy. }
    simpl in Hr0, Ho.
    rewrite list_lookup_fmap in Hr0.
    destruct (input_ids enc !! i) as [r|] eqn:Hr; [|discriminate].
    inversion Hr0; subst r0.
    exists (numel y.2), r. split; [|done].
    unfold prompt_length. by rewrite Hex.
  - intros i Hi. rewrite Hrest.
    + by rewrite list_lookup_fmap.
    + right. rewrite length_fmap, Hplen. simpl. lia.
Qed.

(** [collate_fn] returns a batch as soon as every example can be
    prepared and the processor returns at least one row per example. *)
Lemma collate_fn_Ok (processor : Processor) (batch : list row)
    (prepared : list (str * list Image * Tensor)) (enc : Encoding) :
  mapM (prepare processor) batch = Ok prepared ->
  proc_call processor ((fun p => p.1.1) <$> prepared)
                      ((fun p => p.1.2) <$> prepared) = Ok enc ->
  (length batch <= length (input_ids enc))%nat ->
  exists labels, collate_fn processor batch = Ok (enc, labels).
Proof.
  intros Hprep Henc Hlen. unfold collate_fn.
  rewrite Hprep. simpl. rewrite Henc. simpl.
  rewrite make_labels_eq.
  destruct (mask_prompts_Ok ((fun p => p.2) <$> prepared) 0
              (map (map (mask_token processor)) (input_ids enc)))
    as [out ->]; [|simpl; eauto].
  rewrite length_fmap, length_map, (mapM_Ok_length _ _ _ Hprep). simpl. lia.
Qed.

(** C1: in the labels [collate_fn] returns, row [i] starts with
    [IGNORE_INDEX] on the whole measured prompt length of example [i]
    (as far as the row reaches). *)
Theorem prompt_span_masked (processor : Processor) (batch : list row)
    (enc : Encoding) (labels : list (list Z)) (i : nat) (ex : row) (n : nat) :
  collate_fn processor batch = Ok (enc, labels) ->
  batch !! i = Some ex ->
  prompt_length processor ex = Ok n ->
  exists r, labels !! i = Some r
    /\ take n r = replicate (Nat.min n (length r)) IGNORE_INDEX
    /\ (forall j v, (j < n)%nat -> r !! j = Some v -> v = IGNORE_INDEX).
Proof.
  intros Hc Hi Hn.
  destruct (collate_fn_rows _ _ _ _ Hc) as (_ & _ & Hrows & _).
  destruct (Hrows i ex Hi) as (n' & r0 & Hn' & _ & Hl).
  rewrite Hn in Hn'. inversion Hn'; subst n'.
  eexists. split; [exact Hl|]. split.
  - rewrite mask_prefix_take. by rewrite mask_prefix_length.
  - intros j v. apply mask_prefix_lookup_lt.
Qed.

(** C3: [labels] has the shape of [input_ids], and wherever [input_ids]
    holds the id of the tokenizer's pad token (its end-of-sequence token
    when it has no pad token), [labels] holds [IGNORE_INDEX], not that
    id. *)
Theorem padding_masked (processor : Processor) (batch : list row)
    (enc : Encoding) (labels : list (list Z)) :
  collate_fn processor batch = Ok (enc, labels) ->
  length labels = length (input_ids enc)
  /\ (forall i r0, input_ids enc !! i = Some r0 ->
        exists r, labels !! i = Some r /\ length r = length r0
          /\ (forall (p : str) (x : Z) (j : nat),
                pad_token (tokenizer processor) = Some p
                \/ (pad_token (tokenizer processor) = None
                    /\ eos_token (tokenizer processor) = Some p) ->
                convert_tokens_to_ids (tokenizer processor) p = Some x ->
                r0 !! j = Some x ->
                r !! j = Some IGNORE_INDEX
                /\ (x <> IGNORE_INDEX -> r !! j <> Some x))).
Proof.
  intros Hc.
  destruct (collate_fn_rows _ _ _ _ Hc) as (Hlen & Hb & Hrows & Hrest).
  split; [done|]. intros i r0 Hr0.
  assert (exists n, labels !! i = Some (mask_prefix n (mask_token processor <$> r0)))
    as [n Hl].
  { destruct (batch !! i) as [ex|] eqn:Hi.
    - destruct (Hrows i ex Hi) as (n & r0' & _ & Hr0' & Hl).
      exists n. congruence.
    - exists 0%nat. apply lookup_ge_None in Hi.
      rewrite (Hrest i Hi), Hr0. simpl. unfold mask_prefix. simpl.
      by rewrite drop_0. }
  eexists. split; [exact Hl|]. split.
  - by rewrite mask_prefix_length, length_fmap.
  - intros p x j Hp Hid Hx.
    assert (masked_id processor x = true) as Hm.
    { unfold masked_id, make_env. simpl.
      destruct Hp as [-> | [-> ->]]; simpl; rewrite Hid;
        by rewrite (bool_decide_eq_true_2 (Some x = Some x)). }
    assert (mask_prefix n (mask_token processor <$> r0) !! j
            = Some IGNORE_INDEX) as Hj.
    { destruct (decide (j < n)%nat) as [Hlt|Hge].
      - destruct (lookup_lt_is_Some_2
                    (mask_prefix n (mask_token processor <$> r0)) j) as [v Hv].
        { rewrite mask_prefix_length, length_fmap. by eapply lookup_lt_Some. }
        by rewrite Hv, (mask_prefix_lookup_lt _ _ _ _ Hlt Hv).
      - rewrite mask_prefix_lookup_ge by lia.
        rewrite list_lookup_fmap, Hx. simpl. f_equal.
        by apply mask_token_masked. }
    split; [done|]. rewrite Hj. intros Hx0 [=]. congruence.
Qed.




End CollateRows.

Lemma demo_collate :
  @Collate.collate_fn Fixtures.keep_pixels Fixtures.char_processor
    Fixtures.demo_batch = Ok (Fixtures.demo_enc, Fixtures.demo_labels).
Proof. vm_compute. reflexivity. Qed.

Lemma blank_collate :
  @Collate.collate_fn Fixtures.keep_pixels Fixtures.char_processor
    Fixtures.blank_batch = Ok (Fixtures.blank_enc, Fixtures.blank_labels).
Proof. vm_compute. reflexivity. Qed.

Lemma prompt_span_masked_witness :
  exists r, Fixtures.demo_labels !! 0%nat = Some r
    /\ take 9 r = replicate 9 IGNORE_INDEX.
Proof.
  destruct (@prompt_span_masked Fixtures.keep_pixels Fixtures.char_processor
              Fixtures.demo_batch Fixtures.demo_enc Fixtures.demo_labels
              0%nat (Fixtures.example "q" "cat") 9%nat
              demo_collate eq_refl eq_refl) as (r & Hr & Ht & _).
  exists r. split; [exact Hr|].
  injection Hr as <-. exact Ht.
Defined.

Lemma padded_collate :
  @Collate.collate_fn Fixtures.keep_pixels Fixtures.char_processor
    Fixtures.padded_batch = Ok (Fixtures.padded_enc, Fixtures.padded_labels).
Proof. vm_compute. reflexivity. Qed.


Lemma padding_masked_witness :
  @Collate.prompt_length Fixtures.keep_pixels Fixtures.char_processor
    (Fixtures.example "q" "a") = Ok 9%nat
  /\ exists r, Fixtures.padded_labels !! 1%nat = Some r
       /\ r !! 10%nat = Some IGNORE_INDEX.
Proof.
  split; [reflexivity|].
  destruct (@padding_masked Fixtures.keep_pixels Fixtures.char_processor
              Fixtures.padded_batch Fixtures.padded_enc Fixtures.padded_labels
              padded_collate) as (_ & Hrows).
  destruct (Hrows 1%nat [85; 58; 1; 262144; 2; 113; 10; 65; 58; 97; 0; 0]
              eq_refl) as (r & Hr & _ & Hpad).
  exists r. split; [exact Hr|].
  exact (proj1 (Hpad (lit "<pad>") 0 10%nat (or_introl eq_refl)
                  eq_refl eq_refl)).
Defined.



(** ** Subset selection and sharding *)

Section SelectFacts.
Context {A : Type}.
Import Data.

(** Picking a run of consecutive positions. *)
Lemma omap_lookup_seq (ds : list A) (n a : nat) :
  omap (fun i => ds !! i) (seq a n) = take n (drop a ds).
Proof.
  revert a. induction n as [|n IH]; intros a; simpl; [by rewrite take_0|].
  rewrite IH. destruct (ds !! a) as [x|] eqn:Hx.
  - rewrite (drop_S _ _ _ Hx). reflexivity.
  - apply lookup_ge_None in Hx. rewrite !drop_ge by lia. by rewrite !take_nil.
Qed.

Lemma omap_lookup_all (ds : list A) :
  omap (fun i => ds !! i) (seq 0 (length ds)) = ds.
Proof. rewrite omap_lookup_seq, drop_0. apply firstn_all. Qed.

Lemma check_valid_Ok (index size : Z) :
  -1 <= index < size -> 0 < size ->
  check_valid_indices_value index size = Ok tt.
Proof.
  intros Hi Hs. unfold check_valid_indices_value.
  destruct (Z.ltb_spec index 0); destruct (Z.ltb_spec (index + size) 0);
    destruct (Z.leb_spec size index); simpl; try done; lia.
Qed.

Lemma check_valid_IndexError (index size : Z) :
  size <= index -> check_valid_indices_value index size = Raise IndexError.
Proof.
  intros Hi. unfold check_valid_indices_value.
  destruct (Z.leb_spec size index); [|lia]. by rewrite orb_true_r.
Qed.

(** A slice inside the dataset is returned; on an empty dataset every
    slice is the dataset itself. *)
Lemma select_contiguous_Ok (ds : list A) (start length : Z) :
  ds = [] \/ (0 <= start < Z.of_nat (List.length ds) /\ 0 <= length
              /\ start + length <= Z.of_nat (List.length ds)) ->
  select_contiguous ds start length
  = Ok (take (Z.to_nat length) (drop (Z.to_nat start) ds)).
Proof.
  unfold select_contiguous. intros [->|(Hs & Hl & Hb)].
  - simpl. by rewrite drop_nil, take_nil.
  - destruct ds as [|x ds]; [simpl in *; lia|].
    change (List.length (x :: ds) =? 0)%nat with false. cbv iota.
    rewrite !check_valid_Ok by lia. done.
Qed.

(** A slice that starts at the end of a dataset with rows is refused,
    also when it is empty. *)
Lemma select_contiguous_IndexError (ds : list A) (start length : Z) :
  ds <> [] -> Z.of_nat (List.length ds) <= start ->
  select_contiguous ds start length = Raise IndexError.
Proof.
  unfold select_contiguous. intros Hne Hs.
  destruct ds as [|x ds]; [done|].
  change (List.length (x :: ds) =? 0)%nat with false. cbv iota.
  rewrite (check_valid_IndexError _ _ Hs). reflexivity.
Qed.

Lemma foldr_max_lt (l : list nat) (n : nat) :
  (0 < n)%nat -> Forall (fun i => (i < n)%nat) l ->
  (foldr Nat.max 0%nat l < n)%nat.
Proof. intros Hn. induction 1; simpl; lia. Qed.

Lemma foldr_min_le (l : list nat) (i : nat) : (foldr Nat.min i l <= i)%nat.
Proof. induction l; simpl; lia. Qed.

(** [select] on an array of indices within bounds. *)
Lemma select_Ok (ds : list A) (indices : list nat) :
  Forall (fun i => (i < length ds)%nat) indices ->
  select ds (Indices indices) = Ok (omap (fun i => ds !! i) indices).
Proof.
  intros Hall. unfold select, select_with_indices_mapping.
  destruct ds as [|x ds].
  - destruct Hall as [|i l Hi _]; [done | simpl in Hi; lia].
  - change (List.length (x :: ds) =? 0)%nat with false. cbv iota.
    destruct indices as [|i l].
    + by rewrite select_contiguous_Ok by (right; simpl; lia).
    + pose proof (foldr_max_lt (i :: l) (length (x :: ds))
                    ltac:(simpl; lia) Hall) as Hmax.
      pose proof (foldr_min_le (i :: l) i) as Hmin.
      inversion Hall; subst.
      rewrite !check_valid_Ok by lia. done.
Qed.

Lemma select_Ok_length (ds : list A) (indices : list nat) :
  Forall (fun i => (i < length ds)%nat) indices ->
  length (omap (fun i => ds !! i) indices) = length indices.
Proof.
  induction 1 as [|i indices Hi _ IH]; [done|].
  simpl. destruct (lookup_lt_is_Some_2 ds i Hi) as [x ->]. simpl. by f_equal.
Qed.

Lemma check_valid_Ok_inv (index size : Z) (u : unit) :
  check_valid_indices_value index size = Ok u -> index < size.
Proof.
  unfold check_valid_indices_value.
  destruct (Z.leb_spec size index); [by rewrite orb_true_r | lia].
Qed.

Lemma foldr_max_ge (l : list nat) (i : nat) :
  i ∈ l -> (i <= foldr Nat.max 0%nat l)%nat.
Proof.
  induction l as [|j l IH]; [by intros ?%elem_of_nil|].
  intros [->|Hi]%elem_of_cons; simpl; [lia|]. specialize (IH Hi). lia.
Qed.

(** What [select] on an array of indices returns when it returns. *)
Lemma select_Indices_inv (ds out : list A) (indices : list nat) :
  select ds (Indices indices) = Ok out ->
  (ds = [] /\ out = [])
  \/ (Forall (fun i => (i < length ds)%nat) indices
      /\ out = omap (fun i => ds !! i) indices).
Proof.
  unfold select, select_with_indices_mapping.
  destruct ds as [|x ds]; [intros [= <-]; by left|].
  change (List.length (x :: ds) =? 0)%nat with false. cbv iota.
  destruct indices as [|i l].
  - rewrite select_contiguous_Ok by (right; simpl; lia).
    intros [= <-]. right. split; [constructor | done].
  - intros Hs. apply bind_Ok in Hs as (u & Hmax%check_valid_Ok_inv & Hs).
    apply bind_Ok in Hs as (_ & _ & Hs). inversion Hs; subst out.
    right. split; [|done].
    apply list.Forall_forall. intros j Hj%foldr_max_ge. lia.
Qed.

Lemma range_bounds (ds : list A) (n : Z) :
  Forall (fun i => (i < length ds)%nat)
         (range (Z.min (Z.of_nat (length ds)) n)).
Proof. unfold range. apply list.Forall_forall. intros i Hi%elem_of_seq. lia. Qed.

(** [select(range(start, stop))] inside the dataset. *)
Lemma select_Range_Ok (ds : list A) (start : nat) (stop : Z) :
  ds = [] \/ ((start < length ds)%nat /\ Z.of_nat start <= stop
              /\ stop <= Z.of_nat (length ds)) ->
  Z.of_nat start <= stop ->
  select ds (Range start stop)
  = Ok (take (Z.to_nat (stop - Z.of_nat start)) (drop start ds)).
Proof.
  intros Hb Hle. unfold select.
  destruct (Z.leb_spec (Z.of_nat start) stop); [|lia].
  rewrite select_contiguous_Ok, Nat2Z.id; [done|].
  destruct Hb as [->|?]; [by left | right; lia].
Qed.

Lemma select_range (ds : list A) (n : Z) :
  select ds (Range 0 (Z.min (Z.of_nat (length ds)) n))
  = Ok (take (Z.to_nat (Z.min (Z.of_nat (length ds)) n)) ds).
Proof.
  set (m := Z.min _ n).
  destruct (Z.le_gt_cases 0 m) as [Hm|Hm].
  - rewrite select_Range_Ok.
    + f_equal. rewrite drop_0. f_equal. lia.
    + destruct ds as [|x ds]; [by left|]. right. subst m. simpl length. lia.
    + done.
  - unfold select. destruct (Z.leb_spec (Z.of_nat 0) m); [lia|].
    replace (Z.to_nat m) with 0%nat by lia.
    unfold select_with_indices_mapping, elements.
    replace (Z.to_nat (m - Z.of_nat 0)) with 0%nat by lia.
    destruct ds as [|x ds]; [done|].
    change (List.length (x :: ds) =? 0)%nat with false. cbv iota. simpl seq.
    by rewrite select_contiguous_Ok by (right; simpl; lia).
Qed.

(** What [select] returns never has more rows than the range asks for
    nor than the dataset has. *)
Lemma select_Range_length (ds out : list A) (start : nat) (stop : Z) :
  select ds (Range start stop) = Ok out ->
  (length out <= Z.to_nat (stop - Z.of_nat start))%nat
  /\ (length out <= length ds)%nat.
Proof.
  unfold select, select_with_indices_mapping, select_contiguous, elements.
  destruct ds as [|x ds].
  - destruct (_ <=? _); intros [= <-]; simpl; lia.
  - change (List.length (x :: ds) =? 0)%nat with false. cbv iota.
    destruct (Z.leb_spec (Z.of_nat start) stop).
    + intros Hs. apply bind_Ok in Hs as (_ & _ & Hs).
      apply bind_Ok in Hs as (_ & _ & Hs). inversion Hs; subst.
      rewrite length_take, length_drop. rewrite Nat2Z.id. lia.
    + replace (Z.to_nat (stop - Z.of_nat start)) with 0%nat by lia.
      simpl seq. change (List.length (x :: ds) =? 0)%nat with false.
      cbv iota. intros Hs. apply bind_Ok in Hs as (_ & _ & Hs).
      apply bind_Ok in Hs as (_ & _ & Hs). inversion Hs; subst.
      simpl. lia.
Qed.

End SelectFacts.

Section SubsetFacts.
Context {A : Type} `{Data.DatasetsLib}.
Import Data.

(** [shuffle] draws a permutation of the row positions. *)
Hypothesis permutation_perm : forall seed n, permutation seed n ≡ₚ seq 0 n.

Lemma shuffle_Ok (ds : list A) (seed : Z) :
  exists sh, shuffle ds seed = Ok sh /\ sh ≡ₚ ds.
Proof.
  unfold shuffle. eexists. split.
  - apply select_Ok. rewrite (permutation_perm seed (length ds)).
    apply list.Forall_forall. intros i Hi%elem_of_seq. lia.
  - rewrite (permutation_perm seed (length ds)). by rewrite omap_lookup_all.
Qed.

(** The subset step returns the first [min(len, n)] rows of the dataset
    (strategy "first") or of its shuffle (strategy "random"). *)
Lemma select_train_Ok (ds : list A) (n : Z) (strategy : string) (seed : Z) :
  exists base,
    (if String.eqb strategy "random" then shuffle ds seed = Ok base
     else base = ds)
    /\ base ≡ₚ ds
    /\ select_train ds (Some n) strategy seed
       = Ok (take (Z.to_nat (Z.min (Z.of_nat (length ds)) n)) base).
Proof.
  unfold select_train. destruct (String.eqb strategy "random").
  - destruct (shuffle_Ok ds seed) as (sh & Hsh & Hperm).
    exists sh. split; [done|]. split; [done|].
    rewrite Hsh. simpl.
    rewrite <- (Permutation_length Hperm). apply select_range.
  - exists ds. split; [done|]. split; [done|]. apply select_range.
Qed.

(** C9: the subset step succeeds and keeps exactly [min(len, n)] rows,
    all of them rows of the dataset; the positions it selects stay within
    bounds; a request of at least [len] rows keeps the whole dataset. *)
Theorem select_train_size (ds : list A) (n : Z) (strategy : string)
    (seed : Z) :
  0 <= n ->
  exists sub,
    select_train ds (Some n) strategy seed = Ok sub
    /\ Z.of_nat (length sub) = Z.min (Z.of_nat (length ds)) n
    /\ sub ⊆+ ds
    /\ Forall (fun i => (i < length ds)%nat)
              (range (Z.min (Z.of_nat (length ds)) n))
    /\ (Z.of_nat (length ds) <= n ->
        sub ≡ₚ ds /\ (String.eqb strategy "random" = false -> sub = ds)).
Proof.
  intros Hn.
  destruct (select_train_Ok ds n strategy seed) as (base & Hbase & Hperm & Hsel).
  eexists. split; [exact Hsel|].
  pose proof (Permutation_length Hperm) as Hlen.
  split; [rewrite length_take; lia|].
  split; [|split; [apply range_bounds|]].
  - etrans; [apply sublist_submseteq, sublist_take|].
    by apply Permutation_submseteq.
  - intros Hall. rewrite take_ge by lia. split; [done|].
    intros Hs. by rewrite Hs in Hbase.
Qed.

End SubsetFacts.

Section ShardIndexFacts.
Import Data.

(** Consecutive runs laid end to end. *)
Lemma bind_seq_runs (f : nat -> list nat) (s : nat -> nat) (k : nat) :
  s 0%nat = 0%nat ->
  (forall r, (r < k)%nat -> (s r <= s (S r))%nat) ->
  (forall r, (r < k)%nat -> f r = seq (s r) (s (S r) - s r)) ->
  seq 0 k ≫= f = seq 0 (s k).
Proof.
  intros H0. induction k as [|k IH]; intros Hmono Hf.
  - by rewrite H0.
  - rewrite seq_S, bind_app, IH by (intros; auto with lia).
    simpl. rewrite app_nil_r, (Hf k) by lia.
    rewrite <- seq_app. f_equal. specialize (Hmono k). lia.
Qed.

(** Start of contiguous shard [r]. *)
Lemma contiguous_cover (len w : Z) :
  0 <= len -> 0 < w ->
  seq 0 (Z.to_nat w) ≫= (fun r => shard_indices len w (Z.of_nat r) true)
  = seq 0 (Z.to_nat len).
Proof.
  intros Hlen Hw.
  pose proof (Z.div_pos len w Hlen Hw) as Hdiv.
  pose proof (Z.mod_pos_bound len w Hw) as Hmod.
  pose proof (Z.div_mod len w ltac:(lia)) as Hdm.
  set (s := fun r : nat =>
              Z.to_nat (len / w * Z.of_nat r + Z.min (Z.of_nat r) (len mod w))).
  rewrite (bind_seq_runs _ s).
  - f_equal. unfold s. rewrite Z2Nat.id by lia. f_equal. lia.
  - unfold s. f_equal. lia.
  - intros r Hr. unfold s. apply Z2Nat.inj_le; nia.
  - intros r Hr. unfold shard_indices, shard_spec, elements, s. cbv zeta.
    f_equal. rewrite Z2Nat.id by nia. rewrite <- Z2Nat.inj_sub by nia.
    f_equal. destruct (Z.ltb_spec (Z.of_nat r) (len mod w)); nia.
Qed.

(** Members of a strided shard. *)
Lemma elem_of_arange (r len w : Z) (i : nat) :
  0 <= r < w ->
  i ∈ arange r len w <-> Z.of_nat i < len /\ Z.of_nat i mod w = r.
Proof.
  intros Hr. unfold arange. rewrite list_elem_of_fmap. split.
  - intros (k & -> & Hk%elem_of_seq).
    assert (0 < (len - r + w - 1) / w) as Hpos by lia.
    assert (Z.of_nat k + 1 <= (len - r + w - 1) / w) as Hk' by lia.
    pose proof (Z.mul_div_le (len - r + w - 1) w ltac:(lia)) as Hle.
    rewrite Z2Nat.id by nia. split; [nia|].
    rewrite Z.mod_add by lia. apply Z.mod_small. lia.
  - intros [Hi Hm]. exists (Z.to_nat (Z.of_nat i / w)).
    pose proof (Z.div_mod (Z.of_nat i) w ltac:(lia)) as Hdm.
    pose proof (Z.div_pos (Z.of_nat i) w ltac:(lia) ltac:(lia)) as Hq.
    split.
    + rewrite Z2Nat.id by done. apply Nat2Z.inj. rewrite Z2Nat.id by nia. lia.
    + apply elem_of_seq. split; [lia|]. simpl.
      assert (Z.of_nat i / w + 1 <= (len - r + w - 1) / w) as Hb
        by (apply Z.div_le_lower_bound; nia).
      lia.
Qed.

Lemma NoDup_arange (r len w : Z) : 0 <= r -> 0 < w -> NoDup (arange r len w).
Proof.
  intros Hr Hw. unfold arange. apply NoDup_fmap_2_strong; [|apply NoDup_seq].
  intros x y _ _ Hxy. apply Z2Nat.inj in Hxy; nia.
Qed.

Lemma strided_cover (len w : Z) :
  0 <= len -> 0 < w ->
  seq 0 (Z.to_nat w) ≫= (fun r => shard_indices len w (Z.of_nat r) false)
  ≡ₚ seq 0 (Z.to_nat len).
Proof.
  intros Hlen Hw. unfold shard_indices, shard_spec, elements.
  apply NoDup_Permutation; [apply NoDup_bind | apply NoDup_seq |].
  - intros r1 r2 i Hr1%elem_of_seq Hr2%elem_of_seq Hi1 Hi2.
    apply elem_of_arange in Hi1, Hi2; lia.
  - intros r _. apply NoDup_arange; lia.
  - apply NoDup_seq.
  - intros i. rewrite list_elem_of_bind, elem_of_seq. split.
    + intros (r & Hi & Hr%elem_of_seq). apply elem_of_arange in Hi; lia.
    + intros Hi. exists (Z.to_nat (Z.of_nat i mod w)).
      pose proof (Z.mod_pos_bound (Z.of_nat i) w Hw) as Hm.
      split; [|apply elem_of_seq; lia].
      apply elem_of_arange; rewrite Z2Nat.id; lia.
Qed.

Context `{DatasetsLib}.

(** The ranks' positions, taken together, are the positions of the
    subset, each exactly once. *)
Lemma rank_indices_cover (len w : Z) :
  0 <= len -> 1 <= w ->
  seq 0 (Z.to_nat w) ≫= (fun r => rank_indices len w (Z.of_nat r))
  ≡ₚ seq 0 (Z.to_nat len).
Proof.
  intros Hlen Hw. unfold rank_indices.
  destruct (Z.ltb_spec 1 w) as [Hgt|Hle].
  - destruct contiguous_default.
    + by rewrite contiguous_cover by lia.
    + apply strided_cover; lia.
  - replace w with 1 by lia. simpl. by rewrite app_nil_r.
Qed.

Lemma rank_indices_bounds (len w r : Z) :
  0 <= len -> 1 <= w -> 0 <= r < w ->
  Forall (fun i => (i < Z.to_nat len)%nat) (rank_indices len w r).
Proof.
  intros Hlen Hw Hr. apply list.Forall_forall. intros i Hi.
  assert (i ∈ seq 0 (Z.to_nat len)) as Hin%elem_of_seq; [|lia].
  rewrite <- (rank_indices_cover len w) by done.
  apply list_elem_of_bind. exists (Z.to_nat r).
  rewrite Z2Nat.id by lia. split; [done|]. apply elem_of_seq. lia.
Qed.

End ShardIndexFacts.

Section ShardSizeFacts.
Import Data.

(** Both layouts give rank [r] the same number of positions. *)
Lemma shard_indices_length (len w r : Z) (c : bool) :
  0 <= len -> 0 <= r < w ->
  length (shard_indices len w r c)
  = Z.to_nat (len / w + (if r <? len mod w then 1 else 0)).
Proof.
  intros Hlen Hr.
  pose proof (Z.div_pos len w Hlen ltac:(lia)) as Hdiv.
  pose proof (Z.mod_pos_bound len w ltac:(lia)) as Hmod.
  pose proof (Z.div_mod len w ltac:(lia)) as Hdm.
  unfold shard_indices, shard_spec, elements. destruct c.
  - cbv zeta. rewrite length_seq. f_equal. rewrite Z2Nat.id by nia. lia.
  - unfold arange. rewrite length_fmap, length_seq. f_equal.
    destruct (Z.ltb_spec r (len mod w)).
    + symmetry. apply (Z.div_unique _ _ _ (len mod w - r - 1)); lia.
    + symmetry. apply (Z.div_unique _ _ _ (len mod w - r + w - 1)); lia.
Qed.

Lemma shard_indices_bounds (len w r : Z) (c : bool) :
  0 <= len -> 0 <= r < w ->
  Forall (fun i => (i < Z.to_nat len)%nat) (shard_indices len w r c).
Proof.
  intros Hlen Hr. apply list.Forall_forall. intros i Hi.
  assert (i ∈ seq 0 (Z.to_nat w)
            ≫= (fun r => shard_indices len w (Z.of_nat r) c)) as Hin.
  { apply list_elem_of_bind. exists (Z.to_nat r).
    rewrite Z2Nat.id by lia. split; [done|]. apply elem_of_seq. lia. }
  destruct c.
  - rewrite contiguous_cover in Hin by lia. apply elem_of_seq in Hin. lia.
  - rewrite strided_cover in Hin by lia. apply elem_of_seq in Hin. lia.
Qed.

(** In the strided layout position [k] of rank [r] is [r + k * w]. *)
Lemma arange_lookup (r len w : Z) (k i : nat) :
  0 <= r -> 0 < w ->
  arange r len w !! k = Some i -> Z.of_nat i = r + Z.of_nat k * w.
Proof.
  intros Hr Hw. unfold arange. rewrite list_lookup_fmap.
  destruct (seq _ _ !! k) as [k'|] eqn:Hk; [|discriminate].
  apply lookup_seq in Hk as [-> _]. simpl. intros [= <-].
  rewrite Z2Nat.id; nia.
Qed.

(** Where a contiguous shard starts and stops: inside the dataset, unless
    the dataset has no more rows than the shard's index. *)
Lemma contiguous_start (len w r : Z) :
  0 <= len -> 0 <= r < w ->
  let start := len / w * r + Z.min r (len mod w) in
  let stop := start + len / w + (if r <? len mod w then 1 else 0) in
  0 <= start <= stop /\ stop <= len /\ (start < len <-> r < len).
Proof.
  intros Hlen Hr.
  pose proof (Z.div_pos len w Hlen ltac:(lia)) as Hdiv.
  pose proof (Z.mod_pos_bound len w ltac:(lia)) as Hmod.
  pose proof (Z.div_mod len w ltac:(lia)) as Hdm.
  cbv zeta.
  destruct (Z.ltb_spec r (len mod w)).
  - rewrite Z.min_l by lia. repeat split; try nia.
  - rewrite Z.min_r by lia.
    assert (len / w * r <= len / w * (w - 1)) by nia.
    repeat split; try nia.
    intros Hrl. destruct (Z.eq_dec (len / w) 0) as [Hz|Hz]; [|nia].
    rewrite Hz in *. lia.
Qed.

End ShardSizeFacts.

Section ShardSelect.
Context {A : Type}.
Import Data.

(** [shard] with a valid index returns the rows at the shard's
    positions, unless the shard is contiguous and starts past the last
    row. *)
Lemma shard_Ok (ds : list A) (w r : Z) (c : bool) :
  0 <= r < w ->
  (c = true -> ds = [] \/ r < Z.of_nat (length ds)) ->
  shard ds w r c
  = Ok (omap (fun i => ds !! i) (shard_indices (Z.of_nat (length ds)) w r c)).
Proof.
  intros Hr Hc. unfold shard, shard_indices.
  destruct (Z.leb_spec 0 r); [|lia]. destruct (Z.ltb_spec r w); [|lia].
  simpl negb. cbv iota.
  destruct c.
  - destruct (contiguous_start (Z.of_nat (length ds)) w r ltac:(lia) Hr)
      as (Hs & Hstop & Hlt).
    unfold shard_spec, elements. cbv zeta.
    rewrite select_Range_Ok.
    + by rewrite omap_lookup_seq.
    + destruct (Hc eq_refl) as [->|Hrl]; [by left|]. right.
      rewrite Z2Nat.id by lia. lia.
    + rewrite Z2Nat.id by lia. lia.
  - apply select_Ok.
    apply (shard_indices_bounds (Z.of_nat (length ds)) w r false ltac:(lia))
      in Hr as Hb.
    by rewrite Nat2Z.id in Hb.
Qed.

(** A contiguous shard of a dataset with rows that would start past the
    last row is refused. *)
Lemma shard_IndexError (ds : list A) (w r : Z) :
  0 <= r < w -> 0 < Z.of_nat (length ds) <= r ->
  shard ds w r true = Raise IndexError.
Proof.
  intros Hr Hlen. unfold shard.
  destruct (Z.leb_spec 0 r); [|lia]. destruct (Z.ltb_spec r w); [|lia].
  simpl negb. cbv iota.
  destruct (contiguous_start (Z.of_nat (length ds)) w r ltac:(lia) Hr)
    as (Hs & Hstop & Hlt).
  unfold shard_spec, select. cbv zeta.
  rewrite Z2Nat.id by lia.
  match goal with |- (if ?a <=? ?b then _ else _) = _ =>
    destruct (Z.leb_spec a b); [|lia] end.
  apply select_contiguous_IndexError; [|lia].
  destruct ds; [simpl in Hlen; lia | done].
Qed.

(** A shard has no more rows than the dataset. *)
Lemma shard_length (ds out : list A) (w r : Z) (c : bool) :
  shard ds w r c = Ok out -> (length out <= length ds)%nat.
Proof.
  unfold shard.
  destruct (Z.leb_spec 0 r); simpl; [|discriminate].
  destruct (Z.ltb_spec r w); simpl; [|discriminate].
  destruct c; unfold shard_spec; cbv zeta.
  - by intros [_ ?]%select_Range_length.
  - intros [[-> ->]|[Hb ->]]%select_Indices_inv; [done|].
    rewrite select_Ok_length by done.
    change (arange r (Z.of_nat (length ds)) w)
      with (shard_indices (Z.of_nat (length ds)) w r false).
    rewrite shard_indices_length by lia.
    pose proof (Z.div_mod (Z.of_nat (length ds)) w ltac:(lia)) as Hdm.
    pose proof (Z.mod_pos_bound (Z.of_nat (length ds)) w ltac:(lia)) as Hmod.
    pose proof (Z.div_pos (Z.of_nat (length ds)) w ltac:(lia) ltac:(lia)).
    destruct (Z.ltb_spec r (Z.of_nat (length ds) mod w)); nia.
Qed.

End ShardSelect.

(** Lists without duplicates that are glued from pieces have disjoint
    pieces. *)
Lemma NoDup_bind_disjoint {A B} (f : A -> list B) (l : list A)
    (x1 x2 : A) (y : B) :
  NoDup (l ≫= f) -> x1 ∈ l -> x2 ∈ l -> x1 <> x2 ->
  y ∈ f x1 -> y ∉ f x2.
Proof.
  induction l as [|a l IH]; intros Hnd H1 H2 Hne Hy1 Hy2.
  - by apply elem_of_nil in H1.
  - change ((a :: l) ≫= f) with (f a ++ (l ≫= f)) in Hnd.
    apply list.NoDup_app in Hnd as (_ & Hdisj & Hnd).
    apply elem_of_cons in H1 as [->|H1], H2 as [->|H2].
    + done.
    + apply (Hdisj y Hy1), list_elem_of_bind. eauto.
    + apply (Hdisj y Hy2), list_elem_of_bind. eauto.
    + by apply (IH Hnd H1 H2 Hne Hy1).
Qed.

Lemma omap_bind {A B C} (f : B -> option C) (g : A -> list B) (l : list A) :
  omap f (l ≫= g) = l ≫= (fun x => omap f (g x)).
Proof.
  induction l as [|x l IH]; [done|].
  change ((x :: l) ≫= g) with (g x ++ (l ≫= g)).
  by rewrite omap_app, IH.
Qed.

Section Partition.
Context {A : Type} `{Data.DatasetsLib}.
Import Data.

Hypothesis permutation_perm : forall seed n, permutation seed n ≡ₚ seq 0 n.

(** What one rank holds: the rows of the subset at its positions; with
    contiguous shards and a subset that has rows, but no more than the
    rank's index, the shard step raises. *)
Lemma shard_train_cases (sub : list A) (w r : Z) :
  1 <= w -> 0 <= r < w ->
  shard_train sub w r
  = if contiguous_default && (1 <? w) && (0 <? Z.of_nat (length sub))
       && (Z.of_nat (length sub) <=? r)
    then Raise IndexError
    else Ok (omap (fun i => sub !! i)
                  (rank_indices (Z.of_nat (length sub)) w r)).
Proof.
  intros Hw Hr. unfold shard_train, rank_indices.
  destruct (Z.ltb_spec 1 w) as [Hgt|Hle].
  - rewrite andb_true_r. destruct contiguous_default eqn:Hc; simpl andb.
    + destruct (Z.ltb_spec 0 (Z.of_nat (length sub)));
        destruct (Z.leb_spec (Z.of_nat (length sub)) r); simpl andb; cbv iota.
      * apply shard_IndexError; lia.
      * apply shard_Ok; [done|]. intros _. right. lia.
      * apply shard_Ok; [done|]. intros _. left.
        destruct sub; [done | simpl in *; lia].
      * apply shard_Ok; [done|]. intros _. right. lia.
    + apply shard_Ok; [done | discriminate].
  - rewrite andb_false_r. simpl andb. cbv iota.
    unfold range. by rewrite Nat2Z.id, omap_lookup_all.
Qed.

Lemma shards_partition (ds : list A) (n : Z) (strategy : string)
    (seed w : Z) :
  1 <= w ->
  exists sub,
    select_train ds (Some n) strategy seed = Ok sub
    /\ Z.of_nat (length sub) = Z.max 0 (Z.min (Z.of_nat (length ds)) n)
    /\ (forall r, 0 <= r < w ->
          rank_dataset ds (Some n) strategy seed w r
          = if contiguous_default && (1 <? w) && (0 <? Z.of_nat (length sub))
               && (Z.of_nat (length sub) <=? r)
            then Raise IndexError
            else Ok (omap (fun i => sub !! i)
                          (rank_indices (Z.of_nat (length sub)) w r)))
    /\ seq 0 (Z.to_nat w)
         ≫= (fun r => rank_indices (Z.of_nat (length sub)) w (Z.of_nat r))
       ≡ₚ seq 0 (length sub)
    /\ (forall r1 r2 i, 0 <= r1 < w -> 0 <= r2 < w -> r1 <> r2 ->
          i ∈ rank_indices (Z.of_nat (length sub)) w r1 ->
          i ∉ rank_indices (Z.of_nat (length sub)) w r2)
    /\ seq 0 (Z.to_nat w)
         ≫= (fun r => omap (fun i => sub !! i)
                        (rank_indices (Z.of_nat (length sub)) w (Z.of_nat r)))
       ≡ₚ sub.
Proof.
  intros Hw.
  destruct (select_train_Ok permutation_perm ds n strategy seed)
    as (base & _ & Hbase & Hsel).
  apply Permutation_length in Hbase.
  set (sub := take _ base) in Hsel.
  assert (Z.of_nat (length sub) = Z.max 0 (Z.min (Z.of_nat (length ds)) n))
    as Hlen by (subst sub; rewrite length_take; lia).
  pose proof (rank_indices_cover (Z.of_nat (length sub)) w ltac:(lia) Hw)
    as Hcover.
  rewrite Nat2Z.id in Hcover.
  exists sub. split; [done|]. split; [done|]. split; [|split; [done|split]].
  - intros r Hr. unfold rank_dataset. rewrite Hsel. simpl.
    by apply shard_train_cases.
  - intros r1 r2 i Hr1 Hr2 Hne Hi1.
    replace r1 with (Z.of_nat (Z.to_nat r1)) in Hi1 by lia.
    replace r2 with (Z.of_nat (Z.to_nat r2)) by lia.
    apply (NoDup_bind_disjoint
             (fun r => rank_indices (Z.of_nat (length sub)) w (Z.of_nat r))
             (seq 0 (Z.to_nat w)) (Z.to_nat r1) (Z.to_nat r2) i).
    + rewrite Hcover. apply NoDup_seq.
    + apply elem_of_seq. lia.
    + apply elem_of_seq. lia.
    + lia.
    + done.
  - rewrite <- omap_bind, Hcover. by rewrite omap_lookup_all.
Qed.

End Partition.



Lemma reversing_perm (seed : Z) (n : nat) :
  @Data.permutation Fixtures.reversing_lib seed n ≡ₚ seq 0 n.
Proof. simpl. symmetry. apply Permutation_rev. Qed.

Lemma contiguous_perm (seed : Z) (n : nat) :
  @Data.permutation Fixtures.contiguous_lib seed n ≡ₚ seq 0 n.
Proof. simpl. symmetry. apply Permutation_rev. Qed.


Lemma select_train_size_witness :
  exists sub,
    @Data.select_train nat Fixtures.reversing_lib (seq 0 7) (Some 11)
      "first" 7 = Ok sub
    /\ Z.of_nat (length sub) = 7 /\ sub = seq 0 7.
Proof.
  destruct (@select_train_size nat Fixtures.reversing_lib reversing_perm
              (seq 0 7) 11 "first" 7 ltac:(lia))
    as (sub & Hsel & Hlen & _ & _ & Hall).
  exists sub. split; [exact Hsel|]. split; [exact Hlen|].
  apply Hall; [simpl; lia | reflexivity].
Defined.

(** ** Further properties of schema normalisation *)

Section NormalizeShape.
Context `{PixelConverter}.
Import Normalize.

Lemma strip_method_or_Ok (v : value) (q : str) :
  strip_method (py_or v (VStr [])) = Ok q -> strip q = q.
Proof.
  unfold py_or. destruct (truthy v); [destruct v|]; simpl; intros [= <-];
    apply strip_idem.
Qed.

(** A normalised record, seen again by [_map], is returned as it is. *)
Lemma _map_fixed_point (im : Image) (q a : str) :
  im_mode im = "RGB" -> strip q = q -> strip a = a ->
  _map {[ "image" := VImage im; "question" := VStr q; "answer" := VStr a ]}
  = Ok {[ "image" := VImage im; "question" := VStr q; "answer" := VStr a ]}.
Proof.
  intros Hm Hq Ha. unfold _map, get, contains, getitem.
  simplify_map_eq. simpl.
  rewrite !or_empty_strip. simpl.
  rewrite convert_rgb_id by done. simpl.
  by rewrite Hq, Ha.
Qed.

(** What a successful [_map] returns. *)
Lemma _map_Ok_inv (ex out : row) :
  _map ex = Ok out ->
  exists im q a,
    out = {[ "image" := VImage im; "question" := VStr q; "answer" := a ]}
    /\ im_mode im = "RGB" /\ strip q = q
    /\ ((contains ex "query" && contains ex "label" = false) ->
        exists s, a = VStr s /\ strip s = s).
Proof.
  unfold _map. destruct (is_none (get ex "image")); [discriminate|].
  intros Hout.
  apply bind_Ok in Hout as ([q a] & Hqa & Hout).
  apply bind_Ok in Hout as (im & Him & Hout).
  inversion Hout; subst out; clear Hout. simpl.
  exists im, q, a. split; [done|].
  assert (im_mode im = "RGB") as Hmode.
  { destruct (get ex "image"); try discriminate.
    inversion Him. apply convert_mode. }
  split; [done|].
  destruct (contains ex "query" && contains ex "label").
  - apply bind_Ok in Hqa as (vq & _ & Hqa).
    apply bind_Ok in Hqa as (q' & Hq' & Hqa).
    apply bind_Ok in Hqa as (lab & _ & Hqa).
    inversion Hqa; subst. split; [|done]. by eapply strip_method_or_Ok.
  - destruct (contains ex "question" && contains ex "answer"); [|discriminate].
    apply bind_Ok in Hqa as (vq & _ & Hqa).
    apply bind_Ok in Hqa as (q' & Hq' & Hqa).
    apply bind_Ok in Hqa as (va & _ & Hqa).
    apply bind_Ok in Hqa as (a' & Ha' & Hqa).
    inversion Hqa; subst. split; [by eapply strip_method_or_Ok|].
    intros _. exists a'. split; [done|]. by eapply strip_method_or_Ok.
Qed.

(** What [normalize_split] returns are the rows [_map] made. *)
Lemma normalize_split_Ok (ds out : list row) :
  normalize_split ds = Ok out -> mapM _map ds = Ok out.
Proof.
  unfold normalize_split, write_table. intros Hn.
  apply bind_Ok in Hn as (rows & Hrows & Hn).
  destruct (_ && _) in Hn; [|discriminate]. by inversion Hn; subst.
Qed.

(** Every row [normalize_split] returns has exactly the columns image,
    question and answer, an RGB image and a stripped question; no row is
    dropped or added. *)
Theorem normalize_split_schema (ds out : list row) :
  normalize_split ds = Ok out ->
  length out = length ds
  /\ Forall (fun o : row =>
       exists im q a,
         o = {[ "image" := VImage im; "question" := VStr q; "answer" := a ]}
         /\ im_mode im = "RGB" /\ strip q = q) out.
Proof.
  intros Hout%normalize_split_Ok. split; [by eapply mapM_Ok_length|].
  apply list.Forall_forall. intros o Ho.
  apply list_elem_of_lookup in Ho as [i Hi].
  assert (exists ex, ds !! i = Some ex) as [ex Hex].
  { apply lookup_lt_is_Some. rewrite <- (mapM_Ok_length _ _ _ Hout).
    by eapply lookup_lt_Some. }
  destruct (mapM_Ok_lookup _ _ _ _ _ Hout Hex) as (o' & Ho' & Hmap).
  rewrite Hi in Ho'. inversion Ho'; subst o'.
  destruct (_map_Ok_inv _ _ Hmap) as (im & q & a & -> & Hm & Hq & _).
  eauto 10.
Qed.

(** When both [query] and [label] are present they decide the result:
    [question] and [answer] columns of the same row are not looked at. *)
Theorem query_label_precedence (ex : row) :
  contains ex "query" && contains ex "label" = true ->
  _map ex = _map (delete "question" (delete "answer" ex)).
Proof.
  intros Hs. unfold _map, get, contains, getitem in *.
  rewrite !lookup_delete_ne by done.
  by rewrite Hs.
Qed.

(** On a [question]/[answer] row normalising twice is normalising once. *)
Theorem normalize_twice_question_answer (ex out : row) :
  contains ex "query" && contains ex "label" = false ->
  _map ex = Ok out -> _map out = Ok out.
Proof.
  intros Hs Hout.
  destruct (_map_Ok_inv _ _ Hout) as (im & q & a & -> & Hm & Hq & Ha).
  destruct (Ha Hs) as (s & -> & Hstrip).
  by apply _map_fixed_point.
Qed.

(** A record normalised from a [label] that is no text cannot be
    normalised again: the [question]/[answer] branch calls [strip] on it. *)
Theorem renormalize_non_text_label (im : Image) (q : str) (n : Z)
    (rest : list value) :
  n <> 0 ->
  exists out,
    _map {[ "image" := VImage im; "query" := VStr q;
            "label" := VList (VInt n :: rest) ]} = Ok out
    /\ _map out = Raise AttributeError.
Proof.
  intros Hn. eexists. split.
  - unfold _map, get, contains, getitem. simplify_map_eq. simpl.
    rewrite or_empty_strip. simpl. reflexivity.
  - unfold _map, get, contains, getitem. simplify_map_eq. simpl.
    rewrite or_empty_strip. simpl.
    unfold py_or. simpl. destruct (Z.eqb_spec n 0); [done|]. reflexivity.
Qed.

End NormalizeShape.

(** ** Degenerate fields *)

Section NormalizeDegenerate.
Context `{PixelConverter}.
Import Normalize.

Lemma strip_method_Raise (v : value) (e : exn) :
  strip_method v = Raise e -> e = AttributeError.
Proof. destruct v; simpl; congruence. Qed.

Lemma convert_method_Raise (v : value) (m : string) (e : exn) :
  convert_method v m = Raise e -> e = AttributeError.
Proof. destruct v; simpl; congruence. Qed.

Lemma strip_method_text (v : value) :
  is_text v = true -> exists s, strip_method (py_or v (VStr [])) = Ok s
    /\ (v = VNone -> s = []).
Proof.
  destruct v; try discriminate; intros _.
  - exists []. by split.
  - rewrite or_empty_strip. eexists. by split.
Qed.

(** Past the two [ValueError]s, [_map] can only raise the
    [AttributeError] of a [strip] or [convert] call. *)
Lemma _map_Raise_inv (ex : row) (e : exn) :
  _map ex = Raise e ->
  image_missing ex = false -> known_schema ex = true -> e = AttributeError.
Proof.
  unfold _map, image_missing, known_schema, contains, getitem.
  intros He Hi Hs. rewrite Hi in He.
  destruct (ex !! "query") as [vq|], (ex !! "label") as [lab|];
    simpl in Hs, He.
  2-4: destruct (ex !! "question") as [vq'|], (ex !! "answer") as [va|];
    simpl in Hs, He; try discriminate.
  all: repeat match type of He with
       | context [strip_method ?v] =>
           let E := fresh "E" in
           destruct (strip_method v) eqn:E; simpl in He;
           [|inversion He; subst; by eapply strip_method_Raise]
       | context [convert_method ?v ?m] =>
           let E := fresh "E" in
           destruct (convert_method v m) eqn:E; simpl in He;
           [|inversion He; subst; by eapply convert_method_Raise]
       end; try discriminate.
Qed.

(** A row typed as the data model says, with an image and a known
    column set, is normalised, whatever its text columns hold. *)
Lemma _map_total (ex : row) :
  well_typed ex = true -> image_missing ex = false -> known_schema ex = true ->
  exists out, _map ex = Ok out.
Proof.
  intros Ht Hi Hs.
  destruct (_map ex) as [out|e] eqn:He; [eauto|]. exfalso.
  pose proof (_map_Raise_inv _ _ He Hi Hs) as ->.
  revert Ht Hi Hs He.
  unfold well_typed, column_ok, image_missing, known_schema, _map,
    get, contains, getitem.
  destruct (ex !! "image") as [[]|]; simpl; try discriminate;
    destruct (ex !! "query") as [[]|], (ex !! "label") as [lab|];
    simpl; try discriminate;
    destruct (ex !! "question") as [[]|], (ex !! "answer") as [[]|];
    simpl; try discriminate; rewrite ?or_empty_strip; simpl; discriminate.
Qed.

(** A column whose values all have the type string, or all the type
    image, can be written. *)
Lemma column_type_uniform (t : arrow_type) (vs : list value)
    (acc : arrow_type) :
  t = AString \/ t = AImage ->
  Forall (fun v => infer_type v = Some t) vs ->
  acc = ANull \/ acc = t ->
  exists u, column_type vs acc = Some u.
Proof.
  intros Ht Hvs. revert acc.
  induction Hvs as [|v vs Hv _ IH]; intros acc Hacc; simpl; [eauto|].
  rewrite Hv. simpl.
  assert (unify acc t = Some t) as ->
    by (destruct Hacc as [-> | ->]; destruct Ht as [-> | ->]; done).
  simpl. apply IH. by right.
Qed.

Lemma column_typed_uniform (t : arrow_type) (rows : list row) (k : string) :
  t = AString \/ t = AImage ->
  Forall (fun o : row => infer_type (get o k) = Some t) rows ->
  column_typed rows k = true.
Proof.
  intros Ht Hrows. unfold column_typed.
  destruct (column_type_uniform t ((fun ex => get ex k) <$> rows) ANull Ht)
    as [u ->]; [by apply Forall_fmap | by left | done].
Qed.

(** The image and question columns [_map] writes are always typed. *)
Lemma normalized_columns_typed (ds rows : list row) :
  mapM _map ds = Ok rows ->
  column_typed rows "image" = true /\ column_typed rows "question" = true.
Proof.
  intros Hrows.
  assert (Forall (fun o : row =>
            infer_type (get o "image") = Some AImage
            /\ infer_type (get o "question") = Some AString) rows) as Hall.
  { apply list.Forall_forall. intros o Ho.
    destruct (mapM_Ok_elem _ _ _ _ Hrows Ho) as (ex & _ & Hmap).
    destruct (_map_Ok_inv _ _ Hmap) as (im & q & a & -> & _).
    unfold get. by simplify_map_eq. }
  split.
  - apply (column_typed_uniform AImage); [by right|].
    eapply list.Forall_impl; [exact Hall|]. by intros o [? ?].
  - apply (column_typed_uniform AString); [by left|].
    eapply list.Forall_impl; [exact Hall|]. by intros o [? ?].
Qed.

(** C10, amended: [_map] raises the two [ValueError]s (image missing,
    unknown column set) and, besides them, only the [AttributeError] of
    a row that is not typed as the data model says (a text column that
    holds neither a text nor [None], an image column that holds no
    image).  On a row with an image and text columns of text or [None],
    a [None] query or question becomes the empty question, and a label
    that is no non-empty list becomes the empty answer, which the answer
    filter drops.  [normalize_split] raises when [_map] raises on a row,
    and otherwise only when the answers it wrote have no common column
    type; it returns the rows when all answers are texts. *)
Theorem normalize_raises_only_image_or_schema (ex : row) (ds : list row) :
  (forall e, _map ex = Raise e ->
     (image_missing ex = true /\ e = missing_image)
     \/ (image_missing ex = false /\ known_schema ex = false
         /\ e = unknown_schema)
     \/ (image_missing ex = false /\ known_schema ex = true
         /\ well_typed ex = false /\ e = AttributeError))
  /\ (forall im, ex !! "image" = Some (VImage im) ->
      (contains ex "query" && contains ex "label" = true ->
       column_ok ex "query" is_text = true ->
       exists out, _map ex = Ok out
         /\ (ex !! "query" = Some VNone ->
             out !! "question" = Some (VStr []))
         /\ ((forall x l, ex !! "label" <> Some (VList (x :: l))) ->
             out !! "answer" = Some (VStr [])
             /\ answer_filter out = Ok false))
      /\ (contains ex "query" && contains ex "label" = false ->
          contains ex "question" && contains ex "answer" = true ->
          column_ok ex "question" is_text = true ->
          column_ok ex "answer" is_text = true ->
          exists out, _map ex = Ok out
            /\ (ex !! "question" = Some VNone ->
                out !! "question" = Some (VStr []))))
  /\ (forall e, normalize_split ds = Raise e ->
        (exists ex', ex' ∈ ds /\ _map ex' = Raise e)
        \/ (exists rows, mapM _map ds = Ok rows
              /\ column_typed rows "answer" = false))
  /\ (forall rows, mapM _map ds = Ok rows ->
        Forall (fun o : row => exists s, o !! "answer" = Some (VStr s)) rows ->
        normalize_split ds = Ok rows).
Proof.
  split; [|split; [|split]].
  - intros e He.
    destruct (image_missing ex) eqn:Hi.
    + left. split; [done|].
      unfold _map, image_missing in *. rewrite Hi in He. congruence.
    + right. destruct (known_schema ex) eqn:Hs.
      * right. split; [done|]. split; [done|].
        split; [|by eapply _map_Raise_inv].
        destruct (well_typed ex) eqn:Ht; [|done].
        destruct (_map_total ex Ht Hi Hs) as [out Hout]. congruence.
      * left. split; [done|]. split; [done|].
        unfold _map, image_missing, known_schema in *. rewrite Hi in He.
        apply orb_false_iff in Hs as [Hs1 Hs2].
        rewrite Hs1, Hs2 in He. simpl in He. congruence.
  - intros im Him. split.
    + unfold column_ok, _map, answer_filter, get, contains, getitem.
      rewrite Him.
      destruct (ex !! "query") as [vq|], (ex !! "label") as [lab|];
        simpl; try discriminate.
      intros _ Hq. destruct (strip_method_text vq Hq) as (s & -> & Hs).
      simpl. eexists. split; [reflexivity|]. split.
      * intros [= ->]. simplify_map_eq. by rewrite Hs.
      * intros Hl. simplify_map_eq.
        destruct lab as [| | |[|x l]|]; simpl; try done.
        by destruct (Hl x l).
    + unfold column_ok, _map, get, contains, getitem. rewrite Him.
      intros -> Hs.
      destruct (ex !! "question") as [vq|], (ex !! "answer") as [va|];
        simpl in *; try discriminate.
      intros Hq Ha.
      destruct (strip_method_text vq Hq) as (s & -> & Hs').
      destruct (strip_method_text va Ha) as (s' & -> & _).
      simpl. eexists. split; [reflexivity|].
      intros [= ->]. simplify_map_eq. by rewrite Hs'.
  - intros e. unfold normalize_split.
    destruct (mapM _map ds) as [rows|e'] eqn:Hrows; simpl.
    + destruct (normalized_columns_typed _ _ Hrows) as [Hi Hq].
      unfold write_table. rewrite Hi, Hq. simpl.
      destruct (column_typed rows "answer") eqn:Ha; [discriminate|].
      intros _. right. eauto.
    + intros [= <-]. left. by apply mapM_Raise_inv.
  - intros rows Hrows Hans. unfold normalize_split. rewrite Hrows. simpl.
    destruct (normalized_columns_typed _ _ Hrows) as [Hi Hq].
    unfold write_table. rewrite Hi, Hq.
    rewrite (column_typed_uniform AString); [done | by left |].
    eapply list.Forall_impl; [exact Hans|].
    intros o [s Hs]. unfold get. by rewrite Hs.
Qed.

End NormalizeDegenerate.

(** C10, counterexample: a row with an image and the [query]/[label]
    columns whose query is the number 5 makes [_map] raise
    [AttributeError], which is neither of the two [ValueError]s; and of
    two rows whose labels are [[5]] and [[]] each is normalised on its
    own (the empty label to the answer ""), but [normalize_split] of the
    two raises, since the answers 5 and "" do not share a column type. *)
Lemma degenerate_fields_raise :
  Normalize.image_missing Fixtures.numeric_query_row = false
  /\ Normalize.known_schema Fixtures.numeric_query_row = true
  /\ @Normalize._map Fixtures.keep_pixels Fixtures.numeric_query_row
     = Raise AttributeError
  /\ mapM (@Normalize._map Fixtures.keep_pixels) Fixtures.numeric_label_rows
     = Ok [ {[ "image" := VImage Fixtures.rgb_image;
               "question" := VStr (lit "q"); "answer" := VInt 5 ]};
            {[ "image" := VImage Fixtures.rgb_image;
               "question" := VStr (lit "q"); "answer" := VStr [] ]} ]
  /\ @Normalize.normalize_split Fixtures.keep_pixels
       Fixtures.numeric_label_rows = Raise ArrowInvalid.
Proof. repeat split; vm_compute; reflexivity. Qed.

Lemma normalize_raises_only_image_or_schema_witness :
  (exists out,
     @Normalize._map Fixtures.keep_pixels Fixtures.degenerate_row = Ok out
     /\ out !! "question" = Some (VStr [])
     /\ out !! "answer" = Some (VStr [])
     /\ Normalize.answer_filter out = Ok false)
  /\ Normalize.well_typed Fixtures.numeric_query_row = false
  /\ exists rows,
       mapM (@Normalize._map Fixtures.keep_pixels) Fixtures.numeric_label_rows
       = Ok rows
       /\ Normalize.column_typed rows "answer" = false.
Proof.
  pose proof (@normalize_raises_only_image_or_schema Fixtures.keep_pixels
                Fixtures.degenerate_row Fixtures.numeric_label_rows)
    as (_ & Hrow & Hds & _).
  pose proof (@normalize_raises_only_image_or_schema Fixtures.keep_pixels
                Fixtures.numeric_query_row [])
    as (Hraise & _).
  split; [|split].
  - destruct (proj1 (Hrow Fixtures.grey_image eq_refl) eq_refl eq_refl)
      as (out & Hout & Hq & Ha).
    exists out. split; [exact Hout|]. split; [exact (Hq eq_refl)|].
    apply Ha. intros x l. vm_compute. discriminate.
  - destruct (Hraise AttributeError eq_refl)
      as [[Hi _]|[(_ & Hs & _)|(_ & _ & Ht & _)]];
      [discriminate Hi | discriminate Hs | exact Ht].
  - destruct (Hds ArrowInvalid eq_refl) as [(ex' & Hin & Hex)|Hrows];
      [|exact Hrows].
    exfalso. apply list_elem_of_In in Hin. simpl in Hin.
    destruct Hin as [<-|[<-|[]]]; vm_compute in Hex; discriminate.
Defined.

(** What [filterM] keeps is a sublist on which the predicate said yes. *)
Lemma filterM_Ok {B} (pred : B -> result bool) (ds kept : list B) :
  Data.filterM pred ds = Ok kept ->
  kept `sublist_of` ds /\ (forall x, x ∈ kept -> pred x = Ok true).
Proof.
  revert kept. induction ds as [|x ds IH]; intros kept Hk; simpl in Hk.
  - inversion Hk; subst. split; [done|]. by intros x ?%elem_of_nil.
  - apply bind_Ok in Hk as (keep & Hkeep & Hk).
    apply bind_Ok in Hk as (rest & Hrest & Hk).
    inversion Hk; subst kept; clear Hk.
    destruct (IH _ Hrest) as (Hsub & Hall).
    destruct keep.
    + split; [by constructor|].
      intros y [->|Hy]%elem_of_cons; [done | by apply Hall].
    + split; [by constructor | done].
Qed.

Section FilterFacts.
Context `{PixelConverter}.
Import Normalize Data.

(** A row the answer filter keeps. *)
Lemma answer_filter_true (ex : row) :
  answer_filter ex = Ok true <->
  exists s, ex !! "answer" = Some (VStr s) /\ strip s <> [].
Proof.
  unfold answer_filter, getitem.
  destruct (ex !! "answer") as [[]|]; simpl; split;
    try (intros [= Hs]); try (intros (s' & [=] & Hs)); subst.
  - eexists. split; [done|]. apply negb_true_iff in Hs.
    by apply bool_decide_eq_false in Hs.
  - f_equal. apply negb_true_iff. by apply bool_decide_eq_false.
Qed.

(** The filter returns exactly the rows whose answer is a text that is
    not blank, in their order and as often as they occur. *)
Theorem answer_filter_kept (ds kept : list row) :
  filterM answer_filter ds = Ok kept ->
  kept = List.filter (fun ex => match ex !! "answer" with
                                | Some (VStr s) => negb (bool_decide (strip s = []))
                                | _ => false
                                end) ds.
Proof.
  revert kept. induction ds as [|x ds IH]; intros kept Hk; simpl in Hk.
  - by inversion Hk.
  - apply bind_Ok in Hk as (keep & Hkeep & Hk).
    apply bind_Ok in Hk as (rest & Hrest & Hk).
    inversion Hk; subst kept; clear Hk.
    rewrite (IH _ Hrest). simpl.
    unfold answer_filter, getitem in Hkeep.
    destruct (x !! "answer") as [[]|]; simpl in Hkeep; inversion Hkeep;
      subst; done.
Qed.

Lemma answer_filter_cases (ex : row) :
  match ex !! "answer" with
  | Some _ => exists b, answer_filter ex = Ok b
  | None => answer_filter ex = Raise (KeyError "answer")
  end.
Proof.
  unfold answer_filter, getitem.
  destruct (ex !! "answer") as [v|]; [|done]. destruct v; simpl; eauto.
Qed.

(** The filter raises on a row without an [answer] column (a
    [KeyError]) and on nothing else. *)
Theorem answer_filter_raises (ds : list row) :
  (exists e, filterM answer_filter ds = Raise e) <->
  exists ex, ex ∈ ds /\ ex !! "answer" = None.
Proof.
  induction ds as [|x ds IH]; simpl.
  - split; [by intros [e [=]] | by intros (ex & ?%elem_of_nil & _)].
  - pose proof (answer_filter_cases x) as Hx.
    destruct (x !! "answer") as [v|] eqn:Hv.
    + destruct Hx as [b ->]. simpl.
      destruct (filterM answer_filter ds) as [rest|e] eqn:Hf; simpl.
      * split; [by intros [e [=]]|].
        intros (ex & [->|Hin]%elem_of_cons & Hex); [congruence|].
        destruct (proj2 IH) as [e [=]]. eauto.
      * split; [|eauto]. intros _.
        destruct (proj1 IH) as (ex & Hin & Hex); [eauto|].
        exists ex. split; [by right | done].
    + rewrite Hx. simpl. split; [|eauto].
      intros _. exists x. split; [by left | done].
Qed.

End FilterFacts.

(** ** Further properties of subset selection and sharding *)


Section ShardFacts.
Context {A : Type}.
Import Data.

(** [shard] with a valid index is balanced: [len // w] rows, one more
    for the first [len % w] ranks, whatever the layout.  A contiguous
    shard of a dataset with rows that would hold no row is not returned:
    [shard] raises [IndexError]. *)
Theorem shard_size (ds : list A) (w r : Z) (c : bool) :
  0 <= r < w ->
  let size := Z.of_nat (length ds) / w
              + (if r <? Z.of_nat (length ds) mod w then 1 else 0) in
  (c = true -> ds <> [] -> size = 0 -> shard ds w r c = Raise IndexError)
  /\ (c = false \/ ds = [] \/ 0 < size ->
      exists out, shard ds w r c = Ok out /\ Z.of_nat (length out) = size).
Proof.
  intros Hr size.
  pose proof (Z.div_pos (Z.of_nat (length ds)) w ltac:(lia) ltac:(lia)) as Hd.
  pose proof (Z.mod_pos_bound (Z.of_nat (length ds)) w ltac:(lia)) as Hmod.
  pose proof (Z.div_mod (Z.of_nat (length ds)) w ltac:(lia)) as Hdm.
  pose proof (shard_indices_bounds (Z.of_nat (length ds)) w r c
                ltac:(lia) Hr) as Hb.
  rewrite Nat2Z.id in Hb.
  assert (0 <= size) as Hsize by (subst size; destruct (_ <? _); lia).
  split.
  - intros -> Hne H0. apply shard_IndexError; [done|].
    split; [destruct ds; [done | simpl; lia]|].
    subst size. destruct (Z.ltb_spec r (Z.of_nat (length ds) mod w)); nia.
  - intros Hc. rewrite shard_Ok.
    + eexists. split; [done|].
      rewrite select_Ok_length by done.
      rewrite shard_indices_length by lia. lia.
    + done.
    + intros ->. destruct Hc as [|[->|Hpos]]; [done | by left |].
      right. subst size.
      destruct (Z.ltb_spec r (Z.of_nat (length ds) mod w)); nia.
Qed.

(** In the strided layout the rows are dealt round-robin: row [k] of
    rank [r] is row [r + k * w] of the dataset. *)
Theorem strided_shard_rows (ds out : list A) (w r : Z) (k : nat) (x : A) :
  shard ds w r false = Ok out ->
  out !! k = Some x ->
  ds !! Z.to_nat (r + Z.of_nat k * w) = Some x.
Proof.
  unfold shard.
  destruct (Z.leb_spec 0 r); simpl; [|discriminate].
  destruct (Z.ltb_spec r w); simpl; [|discriminate].
  intros [[-> ->]|[Hb ->]]%select_Indices_inv Hk; [done|].
  assert (exists i, arange r (Z.of_nat (length ds)) w !! k = Some i)
    as [i Hi].
  { apply lookup_lt_is_Some. rewrite <- (select_Ok_length ds) by done.
    by eapply lookup_lt_Some. }
  assert (omap (fun i => ds !! i) (arange r (Z.of_nat (length ds)) w) !! k
          = ds !! i) as Hki.
  { clear Hk. revert k Hi.
    induction Hb as [|j l Hj Hl IH]; intros k Hi; [done|].
    cbn [omap list_omap]. destruct (lookup_lt_is_Some_2 ds j Hj) as [y Hy].
    rewrite Hy. destruct k as [|k]; simpl in *; [congruence | by apply IH]. }
  rewrite Hki in Hk.
  apply arange_lookup in Hi; [|lia..].
  by rewrite <- Hi, Nat2Z.id.
Qed.

End ShardFacts.

Section PipelineFacts.
Context {A : Type} `{Data.DatasetsLib}.
Import Data.

(** A strategy other than "random" (also a misspelt one) takes the
    first rows in their order; a size of zero or less takes none. *)
Theorem other_strategy_takes_prefix (ds : list A) (n : Z)
    (strategy : string) (seed : Z) :
  strategy <> "random" ->
  select_train ds (Some n) strategy seed
  = Ok (take (Z.to_nat (Z.min (Z.of_nat (length ds)) n)) ds)
  /\ (n <= 0 -> select_train ds (Some n) strategy seed = Ok []).
Proof.
  intros Hs. unfold select_train.
  destruct (String.eqb_spec strategy "random") as [|_]; [done|].
  rewrite select_range. split; [done|].
  intros Hn. by replace (Z.to_nat _) with 0%nat by lia.
Qed.

(** The subset never has more rows than requested, with or without a
    well-behaved shuffle. *)
Lemma select_train_length (ds sub : list A) (n : Z) (strategy : string)
    (seed : Z) :
  select_train ds (Some n) strategy seed = Ok sub ->
  (length sub <= Z.to_nat n)%nat.
Proof.
  unfold select_train. destruct (String.eqb strategy "random").
  - intros Hsel. apply bind_Ok in Hsel as (sh & _ & Hsel).
    apply select_Range_length in Hsel as [Hsel _]. lia.
  - intros Hsel. apply select_Range_length in Hsel as [Hsel _]. lia.
Qed.

Lemma shard_train_length (sub out : list A) (w r : Z) :
  shard_train sub w r = Ok out -> (length out <= length sub)%nat.
Proof.
  unfold shard_train. destruct (1 <? w); [|by intros [= <-]].
  apply shard_length.
Qed.

(** With more than one rank, a rank outside [0, world_size) stops the
    run with [ValueError] once the subset is selected; with one rank (or
    a world size below one) the rank is not looked at and the whole
    subset is kept. *)
Theorem rank_out_of_range (ds sub : list A) (max_train_samples : option Z)
    (strategy : string) (seed w r : Z) :
  select_train ds max_train_samples strategy seed = Ok sub ->
  (1 < w -> ~ (0 <= r < w) ->
   rank_dataset ds max_train_samples strategy seed w r
   = Raise (ValueError "index should be in [0, num_shards-1]"))
  /\ (w <= 1 ->
      rank_dataset ds max_train_samples strategy seed w r = Ok sub).
Proof.
  intros Hsel. unfold rank_dataset. rewrite Hsel. simpl.
  unfold shard_train, shard. split.
  - intros Hw Hr. destruct (Z.ltb_spec 1 w); [|lia].
    destruct (Z.leb_spec 0 r); destruct (Z.ltb_spec r w); simpl; try done.
    lia.
  - intros Hw. by destruct (Z.ltb_spec 1 w); [lia|].
Qed.

Hypothesis permutation_perm : forall seed n, permutation seed n ≡ₚ seq 0 n.

Lemma bind_concat_fmap {B C} (f : B -> list C) (l : list B) :
  l ≫= f = concat (f <$> l).
Proof. induction l as [|x l IH]; [done|]. csimpl. by rewrite IH. Qed.

(** With contiguous shards and a subset that is empty or has at least
    as many rows as there are ranks, the ranks' datasets laid end to end
    in rank order are the selected subset itself, rows in the same
    order. *)
Theorem contiguous_shards_concat (ds : list A) (n : Z) (strategy : string)
    (seed w : Z) :
  contiguous_default = true -> 1 <= w ->
  Z.min (Z.of_nat (length ds)) n <= 0 \/ w <= Z.min (Z.of_nat (length ds)) n ->
  exists shards : list (list A),
    length shards = Z.to_nat w
    /\ (forall r sh, shards !! r = Some sh ->
          rank_dataset ds (Some n) strategy seed w (Z.of_nat r) = Ok sh)
    /\ select_train ds (Some n) strategy seed = Ok (concat shards).
Proof.
  intros Hc Hw Hsize.
  destruct (shards_partition permutation_perm ds n strategy seed w Hw)
    as (sub & Hsel & Hlen & Hrank & _ & _ & _).
  exists ((fun r => omap (fun i => sub !! i)
             (rank_indices (Z.of_nat (length sub)) w (Z.of_nat r)))
          <$> seq 0 (Z.to_nat w)).
  split; [by rewrite length_fmap, length_seq|]. split.
  - intros r sh Hr. rewrite list_lookup_fmap in Hr.
    destruct (seq _ _ !! r) as [r'|] eqn:Hr'; [|discriminate].
    apply lookup_seq in Hr' as [-> Hlt]. simpl in Hr.
    inversion Hr; subst sh. rewrite Hrank by lia.
    destruct (Z.ltb_spec 0 (Z.of_nat (length sub)));
      destruct (Z.leb_spec (Z.of_nat (length sub)) (Z.of_nat r));
      rewrite ?andb_false_r; try done.
    lia.
  - rewrite Hsel. f_equal.
    rewrite <- bind_concat_fmap, <- omap_bind.
    assert (seq 0 (Z.to_nat w)
              ≫= (fun r => rank_indices (Z.of_nat (length sub)) w (Z.of_nat r))
            = seq 0 (length sub)) as ->.
    { unfold rank_indices. rewrite Hc.
      destruct (Z.ltb_spec 1 w).
      - rewrite contiguous_cover by lia. by rewrite Nat2Z.id.
      - replace w with 1 by lia. simpl. unfold range.
        by rewrite app_nil_r, Nat2Z.id. }
    by rewrite omap_lookup_all.
Qed.

End PipelineFacts.

Section TrainDatasetFacts.
Context `{PixelConverter} `{Data.DatasetsLib}.
Import Normalize Data.

(** Every row a rank hands to the trainer has exactly the columns image,
    question and answer: an RGB image, a stripped question and an answer
    text that is not blank. *)
Theorem train_rows_normalized (raw final : list row)
    (max_train_samples : option Z) (strategy : string) (seed w r : Z) :
  train_dataset_of raw max_train_samples strategy seed w r = Ok final ->
  Forall (fun o : row =>
    exists im q s,
      o = {[ "image" := VImage im; "question" := VStr q; "answer" := VStr s ]}
      /\ im_mode im = "RGB" /\ strip q = q /\ strip s <> []) final.
Proof.
  unfold train_dataset_of. intros Hf.
  apply bind_Ok in Hf as (shard & _ & Hf).
  apply bind_Ok in Hf as (normed & Hnorm & Hf).
  destruct (filterM_Ok _ _ _ Hf) as (Hsub & Hkept).
  apply list.Forall_forall. intros o Ho.
  destruct (proj1 (answer_filter_true o) (Hkept o Ho)) as (s & Hs & Hblank).
  assert (o ∈ normed) as Hin by by eapply elem_of_sublist.
  apply normalize_split_Ok in Hnorm.
  destruct (mapM_Ok_elem _ _ _ _ Hnorm Hin) as (ex & _ & Hmap).
  destruct (_map_Ok_inv _ _ Hmap) as (im & q & a & -> & Hm & Hq & _).
  simplify_map_eq. eauto 10.
Qed.

(** The [train_samples] metric is the number of rows the rank itself
    trains on (after sharding and filtering), never the global subset
    size, as long as the requested size is not negative. *)
Theorem train_samples_is_rank_size (raw final : list row)
    (max_train_samples : option Z) (strategy : string) (seed w r : Z) :
  train_dataset_of raw max_train_samples strategy seed w r = Ok final ->
  (forall n, max_train_samples = Some n -> 0 <= n) ->
  Metrics.train_samples max_train_samples (length final)
  = Z.of_nat (length final).
Proof.
  unfold train_dataset_of, rank_dataset, Metrics.train_samples.
  intros Hf Hn.
  destruct max_train_samples as [n|]; simpl; [|lia].
  apply bind_Ok in Hf as (shard & Hshard & Hf).
  apply bind_Ok in Hshard as (sub & Hsub & Hshard).
  apply bind_Ok in Hf as (normed & Hnorm & Hf).
  apply select_train_length in Hsub.
  apply shard_train_length in Hshard.
  apply normalize_split_Ok, mapM_Ok_length in Hnorm.
  destruct (filterM_Ok _ _ _ Hf) as (Hsubl%sublist_length & _).
  specialize (Hn n eq_refl). lia.
Qed.

End TrainDatasetFacts.

(** ** Further properties of collation *)

Section CollateMore.
Context `{PixelConverter}.
Import Collate.

Lemma mask_token_cases (processor : Processor) (x : Z) :
  mask_token processor x = IGNORE_INDEX \/ mask_token processor x = x.
Proof.
  destruct (masked_id processor x) eqn:Hm.
  - left. by apply mask_token_masked.
  - right. by apply mask_token_kept.
Qed.

(** The row of [labels] for a row of [input_ids], inside or beyond the
    batch. *)
Lemma collate_fn_row (processor : Processor) (batch : list row)
    (enc : Encoding) (labels : list (list Z)) (i : nat) (r0 : list Z) :
  collate_fn processor batch = Ok (enc, labels) ->
  input_ids enc !! i = Some r0 ->
  exists n, labels !! i = Some (mask_prefix n (mask_token processor <$> r0)).
Proof.
  intros Hc Hr0.
  destruct (collate_fn_rows _ _ _ _ Hc) as (_ & _ & Hrows & Hrest).
  destruct (batch !! i) as [ex|] eqn:Hi.
  - destruct (Hrows i ex Hi) as (n & r0' & _ & Hr0' & Hl).
    exists n. congruence.
  - exists 0%nat. apply lookup_ge_None in Hi.
    rewrite (Hrest i Hi), Hr0. simpl. unfold mask_prefix. simpl.
    by rewrite drop_0.
Qed.

(** A label is either [IGNORE_INDEX] or the input id at its place:
    masking never writes any other value and never moves a token. *)
Theorem labels_ignore_or_input (processor : Processor) (batch : list row)
    (enc : Encoding) (labels : list (list Z)) (i j : nat) (r : list Z)
    (v : Z) :
  collate_fn processor batch = Ok (enc, labels) ->
  labels !! i = Some r -> r !! j = Some v ->
  v = IGNORE_INDEX
  \/ exists r0, input_ids enc !! i = Some r0 /\ r0 !! j = Some v.
Proof.
  intros Hc Hr Hv.
  destruct (collate_fn_rows _ _ _ _ Hc) as (Hlen & _).
  destruct (lookup_lt_is_Some_2 (input_ids enc) i) as [r0 Hr0].
  { rewrite <- Hlen. by eapply lookup_lt_Some. }
  destruct (collate_fn_row _ _ _ _ _ _ Hc Hr0) as [n Hl].
  rewrite Hr in Hl. inversion Hl; subst r; clear Hl.
  destruct (decide (j < n)%nat) as [Hlt|Hge].
  - left. by eapply mask_prefix_lookup_lt.
  - rewrite mask_prefix_lookup_ge in Hv by lia.
    rewrite list_lookup_fmap in Hv.
    destruct (r0 !! j) as [x|] eqn:Hx; [|discriminate].
    simpl in Hv. inversion Hv; subst v.
    destruct (mask_token_cases processor x) as [->| ->]; [by left|].
    right. eauto.
Qed.

(** Image tokens never carry a label: wherever [input_ids] holds the
    legacy placeholder 262144, or a begin/end-of-image id that is an
    integer other than the unknown-token id, [labels] holds
    [IGNORE_INDEX]. *)
Theorem image_tokens_masked (processor : Processor) (batch : list row)
    (enc : Encoding) (labels : list (list Z)) (i j : nat) (r0 : list Z)
    (x : Z) :
  collate_fn processor batch = Ok (enc, labels) ->
  input_ids enc !! i = Some r0 -> r0 !! j = Some x ->
  x = LEGACY_IMAGE_TOKEN_ID
  \/ (Some x = special_id (tokenizer processor) "boi_token"
      /\ Some x <> unk_token_id (tokenizer processor))
  \/ (Some x = special_id (tokenizer processor) "eoi_token"
      /\ Some x <> unk_token_id (tokenizer processor)) ->
  exists r, labels !! i = Some r /\ r !! j = Some IGNORE_INDEX.
Proof.
  intros Hc Hr0 Hx Hkind.
  destruct (collate_fn_row _ _ _ _ _ _ Hc Hr0) as [n Hl].
  eexists. split; [exact Hl|].
  assert (masked_id processor x = true) as Hm.
  { unfold masked_id, make_env, maskable. simpl.
    destruct Hkind as [->|[[<- Hunk]|[<- Hunk]]].
    - rewrite Z.eqb_refl. by rewrite !orb_true_r.
    - rewrite (bool_decide_eq_false_2 _ Hunk).
      rewrite (bool_decide_eq_true_2 (Some x = Some x)) by done.
      by rewrite !orb_true_r.
    - rewrite (bool_decide_eq_false_2 _ Hunk).
      rewrite (bool_decide_eq_true_2 (Some x = Some x)) by done.
      by rewrite !orb_true_r. }
  destruct (decide (j < n)%nat) as [Hlt|Hge].
  - destruct (lookup_lt_is_Some_2
                (mask_prefix n (mask_token processor <$> r0)) j) as [v Hv].
    { rewrite mask_prefix_length, length_fmap. by eapply lookup_lt_Some. }
    by rewrite Hv, (mask_prefix_lookup_lt _ _ _ _ Hlt Hv).
  - rewrite mask_prefix_lookup_ge by lia.
    rewrite list_lookup_fmap, Hx. simpl. f_equal.
    by apply mask_token_masked.
Qed.

(** A tokenizer without pad token pads with its end-of-sequence token,
    so every end-of-sequence token, also the one closing the answer, is
    left out of the loss. *)
Theorem eos_masked_without_pad_token (processor : Processor)
    (batch : list row) (enc : Encoding) (labels : list (list Z))
    (i j : nat) (r0 : list Z) (eos : str) (x : Z) :
  collate_fn processor batch = Ok (enc, labels) ->
  pad_token (tokenizer processor) = None ->
  eos_token (tokenizer processor) = Some eos ->
  convert_tokens_to_ids (tokenizer processor) eos = Some x ->
  input_ids enc !! i = Some r0 -> r0 !! j = Some x ->
  exists r, labels !! i = Some r /\ r !! j = Some IGNORE_INDEX.
Proof.
  intros Hc Hpad Heos Hid Hr0 Hx.
  destruct (collate_fn_row _ _ _ _ _ _ Hc Hr0) as [n Hl].
  eexists. split; [exact Hl|].
  assert (masked_id processor x = true) as Hm.
  { unfold masked_id, make_env. simpl. rewrite Hpad, Heos. simpl.
    rewrite Hid. by rewrite (bool_decide_eq_true_2 (Some x = Some x)). }
  destruct (decide (j < n)%nat) as [Hlt|Hge].
  - destruct (lookup_lt_is_Some_2
                (mask_prefix n (mask_token processor <$> r0)) j) as [v Hv].
    { rewrite mask_prefix_length, length_fmap. by eapply lookup_lt_Some. }
    by rewrite Hv, (mask_prefix_lookup_lt _ _ _ _ Hlt Hv).
  - rewrite mask_prefix_lookup_ge by lia.
    rewrite list_lookup_fmap, Hx. simpl. f_equal.
    by apply mask_token_masked.
Qed.

(** When the measured prompt is at least as long as the row (as for an
    example without assistant turn), the whole row is [IGNORE_INDEX]. *)
Theorem row_fully_masked (processor : Processor) (batch : list row)
    (enc : Encoding) (labels : list (list Z)) (i : nat) (ex : row)
    (n : nat) (r0 : list Z) :
  collate_fn processor batch = Ok (enc, labels) ->
  batch !! i = Some ex ->
  prompt_length processor ex = Ok n ->
  input_ids enc !! i = Some r0 ->
  (length r0 <= n)%nat ->
  labels !! i = Some (replicate (length r0) IGNORE_INDEX).
Proof.
  intros Hc Hi Hn Hr0 Hlen.
  destruct (collate_fn_rows _ _ _ _ Hc) as (_ & _ & Hrows & _).
  destruct (Hrows i ex Hi) as (n' & r0' & Hn' & Hr0' & Hl).
  rewrite Hn in Hn'. inversion Hn'; subst n'.
  rewrite Hr0 in Hr0'. inversion Hr0'; subst r0'.
  rewrite Hl. f_equal. unfold mask_prefix.
  rewrite length_fmap, Nat.min_r by done.
  rewrite drop_ge by (by rewrite length_fmap). by rewrite app_nil_r.
Qed.

(** The prompt loop raises [IndexError] when there are more prompts than
    rows. *)
Lemma mask_prompts_IndexError (ps : list Tensor) :
  forall (i : nat) (labels : list (list Z)),
  (i <= length labels < i + length ps)%nat ->
  mask_prompts i ps labels = Raise IndexError.
Proof.
  induction ps as [|p ps IH]; intros i labels Hlen; simpl in *; [lia|].
  unfold mask_row_prefix.
  destruct (labels !! i) as [r|] eqn:Hr; [|done].
  apply lookup_lt_Some in Hr.
  simpl. apply IH. rewrite length_insert. lia.
Qed.

(** If the processor returns fewer rows than there are examples,
    [collate_fn] raises [IndexError]; it does not return a short batch. *)
Theorem collate_fn_short_encoding (processor : Processor) (batch : list row)
    (prepared : list (str * list Image * Tensor)) (enc : Encoding) :
  mapM (prepare processor) batch = Ok prepared ->
  proc_call processor ((fun p => p.1.1) <$> prepared)
                      ((fun p => p.1.2) <$> prepared) = Ok enc ->
  (length (input_ids enc) < length batch)%nat ->
  collate_fn processor batch = Raise IndexError.
Proof.
  intros Hprep Henc Hlen. unfold collate_fn.
  rewrite Hprep. simpl. rewrite Henc. simpl.
  rewrite make_labels_eq, mask_prompts_IndexError; [done|].
  rewrite length_fmap, length_map, (mapM_Ok_length _ _ _ Hprep). simpl. lia.
Qed.

End CollateMore.

Section PrepareFacts.
Context `{PixelConverter}.
Import Collate.

Lemma concat_fmap_nil {B C} (l : list B) :
  concat ((fun _ => @nil C) <$> l) = [].
Proof. induction l as [|x l IH]; [done|]. by simpl. Qed.

(** The images of the conversation [collate_fn] builds: the one of the
    user turn. *)
Lemma process_vision_info_conversation (image : value) (q : str)
    (turns : list message) :
  Forall (fun m => Forall (fun b => exists s, b = BText s) (content m)) turns ->
  process_vision_info (user_msg image q :: turns)
  = (i ← convert_method image "RGB"; Ok [i]).
Proof.
  intros Hturns. unfold process_vision_info.
  assert (mapM (fun msg => blocks ← mapM vision_of_block (content msg);
                           Ok (concat blocks)) turns
          = Ok ((fun _ => []) <$> turns)) as Htail.
  { apply mapM_Ok_all. intros m Hm.
    rewrite list.Forall_forall in Hturns. specialize (Hturns m Hm).
    rewrite (mapM_Ok_all vision_of_block (content m) (fun _ => [])).
    - simpl. f_equal. apply concat_fmap_nil.
    - intros b Hb. rewrite list.Forall_forall in Hturns.
      by destruct (Hturns b Hb) as [s ->]. }
  simpl. destruct (convert_method image "RGB") as [i|e]; simpl; [|done].
  rewrite Htail. simpl. f_equal. f_equal. apply concat_fmap_nil.
Qed.

(** Whenever an example can be prepared, it contributes exactly one
    image, the row's own image converted to RGB, with or without
    assistant turn. *)
Theorem prepare_one_image (processor : Processor) (ex : row) (text : str)
    (images : list Image) (p_ids : Tensor) :
  prepare processor ex = Ok (text, images, p_ids) ->
  exists im, ex !! "image" = Some (VImage im)
    /\ images = [convert im "RGB"]
    /\ Forall (fun i => im_mode i = "RGB") images.
Proof.
  unfold prepare, getitem. intros Hp.
  apply bind_Ok in Hp as (vq & _ & Hp).
  apply bind_Ok in Hp as (q & _ & Hp).
  apply bind_Ok in Hp as (a & _ & Hp).
  apply bind_Ok in Hp as (image & Himage & Hp).
  apply bind_Ok in Hp as (full_text & _ & Hp).
  apply bind_Ok in Hp as (full_images & Himgs & Hp).
  apply bind_Ok in Hp as (prompt_enc & _ & Hp).
  apply bind_Ok in Hp as (p & _ & Hp).
  inversion Hp; subst; clear Hp.
  rewrite process_vision_info_conversation in Himgs.
  - destruct (ex !! "image") as [v|]; [|discriminate].
    inversion Himage; subst v.
    destruct image; try discriminate. simpl in Himgs.
    inversion Himgs; subst. exists im. split; [done|]. split; [done|].
    constructor; [apply convert_mode | constructor].
  - destruct (bool_decide _); repeat constructor. eauto.
Qed.

(** An answer that is blank, [None] or absent is the same to
    [collate_fn]: the example is prepared as without answer. *)
Theorem blank_answer_as_missing (processor : Processor) (ex : row) (a : str) :
  strip a = [] ->
  prepare processor (<["answer" := VStr a]> ex)
  = prepare processor (delete "answer" ex)
  /\ prepare processor (<["answer" := VNone]> ex)
     = prepare processor (delete "answer" ex).
Proof.
  intros Ha. unfold prepare, getitem, get.
  rewrite !(lookup_insert_ne _ "answer" "question") by done.
  rewrite !(lookup_insert_ne _ "answer" "image") by done.
  rewrite (lookup_delete_ne _ "answer" "question") by done.
  rewrite (lookup_delete_ne _ "answer" "image") by done.
  rewrite !lookup_insert_eq, lookup_delete_eq. simpl.
  rewrite or_empty_strip, Ha. simpl.
  destruct (ex !! "question") as [vq|]; simpl; [|done].
  by destruct (strip_method vq).
Qed.

(** On a row as the training dataset holds it (RGB image, stripped
    question, answer text not blank) the conversation always has the
    assistant turn with the stripped answer, the prompt only the user
    turn, and the image is passed on as it is. *)
Theorem prepare_train_row (processor : Processor) (im : Image)
    (q s : str) :
  im_mode im = "RGB" -> strip q = q -> strip s <> [] ->
  prepare processor
    {[ "image" := VImage im; "question" := VStr q; "answer" := VStr s ]}
  = (full_text ← render_chat processor
                   [user_msg (VImage im) q; assistant_msg (strip s)];
     prompt_enc ← tokenize_chat processor [[user_msg (VImage im) q]];
     p_ids ← to_1d_ids prompt_enc processor;
     Ok (strip full_text, [im], p_ids)).
Proof.
  intros Hm Hq Hs.
  assert (process_vision_info [user_msg (VImage im) q; assistant_msg (strip s)]
          = Ok [im]) as Himgs.
  { rewrite process_vision_info_conversation by (repeat constructor; eauto).
    simpl. by rewrite convert_rgb_id. }
  unfold prepare, getitem, get.
  simplify_map_eq. cbn [strip_method mbind result_bind]. rewrite Hq.
  rewrite or_empty_strip. cbn [mbind result_bind].
  rewrite (bool_decide_eq_false_2 _ Hs), Himgs.
  by destruct (render_chat processor _).
Qed.

(** A row without a text question or without an image is never
    collated: [prepare] raises, and so does [collate_fn] on any batch
    holding such a row. *)
Theorem collate_fn_needs_question_and_image (processor : Processor)
    (batch : list row) (ex : row) :
  ex ∈ batch ->
  (forall s, ex !! "question" <> Some (VStr s))
  \/ (forall im, ex !! "image" <> Some (VImage im)) ->
  (exists e, prepare processor ex = Raise e)
  /\ (exists e, collate_fn processor batch = Raise e).
Proof.
  intros Hin Hbad.
  assert (exists e, prepare processor ex = Raise e) as [e He].
  { destruct (prepare processor ex) as [[[text images] p]|e] eqn:Hp; [|eauto].
    exfalso. unfold prepare, getitem in Hp.
    apply bind_Ok in Hp as (vq & Hvq & Hp).
    apply bind_Ok in Hp as (q & Hq & Hp).
    apply bind_Ok in Hp as (a & _ & Hp).
    apply bind_Ok in Hp as (image & Himage & Hp).
    apply bind_Ok in Hp as (full_text & _ & Hp).
    apply bind_Ok in Hp as (full_images & Himgs & Hp).
    destruct Hbad as [Hbad|Hbad].
    - destruct (ex !! "question") as [v|]; [|discriminate].
      inversion Hvq; subst v.
      destruct vq; try discriminate. by eapply Hbad.
    - rewrite process_vision_info_conversation in Himgs
        by (destruct (bool_decide _); repeat constructor; eauto).
      destruct (ex !! "image") as [v|]; [|discriminate].
      inversion Himage; subst v.
      destruct image; try discriminate. by eapply Hbad. }
  split; [eauto|]. unfold collate_fn.
  destruct (mapM_Raise_elem (prepare processor) batch ex Hin) as [e' ->];
    [by rewrite He | simpl; eauto].
Qed.

End PrepareFacts.

(** ** LoRA target modules *)

Section LoraFacts.
Import Lora.

Lemma split_not_nil (sep : N) (s : str) : split sep s <> [].
Proof.
  destruct s as [|c s]; [done|]. simpl.
  destruct (c =? sep)%N; [done|]. by destruct (split sep s).
Qed.

(** No piece of a split holds the separator. *)
Lemma split_no_sep (sep : N) (s : str) :
  Forall (fun p => sep ∉ p) (split sep s).
Proof.
  induction s as [|c s IH]; simpl.
  - repeat constructor. by intros ?%elem_of_nil.
  - destruct (N.eqb_spec c sep) as [->|Hne].
    + constructor; [by intros ?%elem_of_nil | done].
    + destruct (split sep s) as [|p rest].
      * repeat constructor. intros [->|?%elem_of_nil]%elem_of_cons; done.
      * inversion IH; subst. constructor; [|done].
        intros [->|?]%elem_of_cons; done.
Qed.

Lemma split_single (sep : N) (s : str) : sep ∉ s -> split sep s = [s].
Proof.
  induction s as [|c s IH]; [done|]. intros Hs. simpl.
  destruct (N.eqb_spec c sep) as [->|Hne].
  - exfalso. apply Hs. by left.
  - rewrite IH; [done|]. intros ?. apply Hs. by right.
Qed.

Lemma split_app_sep (sep : N) (s rest : str) :
  sep ∉ s -> split sep (s ++ sep :: rest) = s :: split sep rest.
Proof.
  induction s as [|c s IH]; intros Hs; simpl.
  - by rewrite N.eqb_refl.
  - destruct (N.eqb_spec c sep) as [->|Hne].
    + exfalso. apply Hs. by left.
    + rewrite IH; [done|]. intros ?. apply Hs. by right.
Qed.

Lemma lstrip_elem (c : N) (s : str) : c ∈ lstrip s -> c ∈ s.
Proof.
  induction s as [|d s IH]; [done|]. simpl.
  destruct (isspace d); [|done]. intros ?. right. auto.
Qed.

Lemma strip_elem (c : N) (s : str) : c ∈ strip s -> c ∈ s.
Proof.
  unfold strip, rstrip. intros Hc.
  apply list_elem_of_In, in_rev, list_elem_of_In in Hc.
  apply lstrip_elem in Hc.
  apply list_elem_of_In, in_rev, list_elem_of_In in Hc.
  by apply lstrip_elem.
Qed.

(** Every parsed target module name is non-empty, stripped and free of
    commas, whatever the option string was. *)
Theorem parsed_targets_clean (s : str) (l : list str) :
  parse_target_modules (Some s) = TList l ->
  Forall (fun m => m <> [] /\ strip m = m /\ comma ∉ m) l.
Proof.
  unfold parse_target_modules.
  destruct (bool_decide (s = lit "all-linear")); [discriminate|].
  intros [= <-]. apply list.Forall_forall. intros m Hm.
  apply list_elem_of_fmap in Hm as (p & -> & Hp).
  apply list_elem_of_filter in Hp as [Hblank Hp].
  split; [done|]. split; [apply strip_idem|].
  pose proof (split_no_sep comma s) as Hsep.
  rewrite list.Forall_forall in Hsep.
  intros Hc%strip_elem. by apply (Hsep p Hp).
Qed.

Lemma split_join (names : list str) :
  names <> [] -> Forall (fun m => comma ∉ m) names ->
  split comma (join names) = names.
Proof.
  induction names as [|n rest IH]; [done|]. intros _ Hall.
  inversion Hall as [|? ? Hn Hrest]; subst.
  destruct rest as [|n' rest'].
  - simpl. by apply split_single.
  - change (join (n :: n' :: rest')) with (n ++ comma :: join (n' :: rest')).
    rewrite split_app_sep by done. f_equal. by apply IH.
Qed.

Lemma filter_all {B} (P : B -> Prop) `{forall x, Decision (P x)} (l : list B) :
  Forall P l -> filter P l = l.
Proof.
  induction 1 as [|x l Hx _ IH]; [done|].
  rewrite filter_cons_True by done. by rewrite IH.
Qed.

Lemma fmap_fixed {B} (f : B -> B) (l : list B) :
  Forall (fun x => f x = x) l -> f <$> l = l.
Proof. induction 1 as [|x l Hx _ IH]; [done|]. csimpl. by f_equal. Qed.

(** Round trip: clean names joined with commas are parsed back to the
    same list (unless the joined string is the keyword "all-linear",
    which is passed on as it is). *)
Theorem parse_join_round_trip (names : list str) :
  Forall (fun m => m <> [] /\ strip m = m /\ comma ∉ m) names ->
  join names <> lit "all-linear" ->
  parse_target_modules (Some (join names)) = TList names.
Proof.
  intros Hall Hkw. unfold parse_target_modules.
  rewrite (bool_decide_eq_false_2 _ Hkw). f_equal.
  destruct names as [|n rest]; [reflexivity|].
  rewrite split_join; [|done|].
  - rewrite filter_all.
    + apply fmap_fixed. eapply list.Forall_impl; [exact Hall|].
      by intros m (_ & ? & _).
    + eapply list.Forall_impl; [exact Hall|].
      intros m (Hne & Hs & _). by rewrite Hs.
  - eapply list.Forall_impl; [exact Hall|]. by intros m (_ & _ & ?).
Qed.

(** The keyword and a missing option are passed on untouched; anything
    else becomes a list, never a bare string. *)
Theorem parse_keyword_or_list (o : option str) :
  match parse_target_modules o with
  | TNone => o = None
  | TName s => o = Some s /\ s = lit "all-linear"
  | TList _ => exists s, o = Some s /\ s <> lit "all-linear"
  end.
Proof.
  unfold parse_target_modules. destruct o as [s|]; [|done].
  destruct (bool_decide (s = lit "all-linear")) eqn:E.
  - apply bool_decide_eq_true in E. done.
  - apply bool_decide_eq_false in E. eauto.
Qed.

End LoraFacts.

(** ** [process_vision_info] on arbitrary messages *)

Section VisionFacts.
Context `{PixelConverter}.

Lemma vision_of_elem_rgb (elem : Vision.pyobj) (imgs : list Image) :
  Vision.vision_of_elem elem = Ok imgs ->
  Forall (fun i => im_mode i = "RGB") imgs.
Proof.
  unfold Vision.vision_of_elem. destruct elem as [| | | |d|]; try by intros [= <-].
  destruct (Vision.is_image_elem d); [|by intros [= <-]].
  destruct (default _ _); try discriminate.
  intros [= <-]. constructor; [apply convert_mode | constructor].
Qed.

Lemma mapM_concat_Forall {B C} (f : B -> result (list C)) (P : C -> Prop)
    (l : list B) (out : list (list C)) :
  (forall x ys, f x = Ok ys -> Forall P ys) ->
  mapM f l = Ok out -> Forall P (concat out).
Proof.
  intros Hf. revert out. induction l as [|x l IH]; intros out Hout; simpl in Hout.
  - inversion Hout. constructor.
  - apply bind_Ok in Hout as (ys & Hys & Hout).
    apply bind_Ok in Hout as (rest & Hrest & Hout).
    inversion Hout; subst out. simpl. apply Forall_app. eauto.
Qed.

(** Whatever the messages look like, every image [process_vision_info]
    returns is in RGB mode. *)
Theorem process_vision_info_rgb
    (messages : list (list (string * Vision.pyobj))) (imgs : list Image) :
  Vision.process_vision_info messages = Ok imgs ->
  Forall (fun i => im_mode i = "RGB") imgs.
Proof.
  unfold Vision.process_vision_info. intros Hp.
  apply bind_Ok in Hp as (out & Hout & Hp). inversion Hp; subst imgs.
  eapply mapM_concat_Forall; [|exact Hout].
  intros msg ys Hys. unfold Vision.vision_of_message in Hys.
  apply bind_Ok in Hys as (blocks & Hblocks & Hys). inversion Hys; subst ys.
  eapply mapM_concat_Forall; [|exact Hblocks].
  apply vision_of_elem_rgb.
Qed.

(** A message without content, or whose content is a plain string,
    carries no image; an element typed "image" without an [image] entry
    makes the call raise. *)
Theorem process_vision_info_edges (msg : list (string * Vision.pyobj))
    (d : list (string * Vision.pyobj)) :
  (Vision.dict_get msg "content" = None
   \/ (exists s, Vision.dict_get msg "content" = Some (Vision.JStr s)) ->
   Vision.vision_of_message msg = Ok [])
  /\ (Vision.dict_get d "image" = None ->
      Vision.dict_get d "type" = Some (Vision.JStr (lit "image")) ->
      Vision.process_vision_info [[("content", Vision.JDict d)]]
      = Raise AttributeError).
Proof.
  split.
  - unfold Vision.vision_of_message. by intros [->|[s ->]].
  - intros Hi Ht. unfold Vision.process_vision_info, Vision.vision_of_message.
    simpl. unfold Vision.is_image_elem. by rewrite Hi, Ht.
Qed.

Lemma vision_of_block_agrees (b : content_block) :
  Vision.vision_of_elem (Vision.obj_of_block b) = Collate.vision_of_block b.
Proof. destruct b as [[]|s]; reflexivity. Qed.

Lemma mapM_fmap_agrees {B C D} (f : C -> result D) (g : B -> result D)
    (h : B -> C) (l : list B) :
  (forall x, f (h x) = g x) -> mapM f (h <$> l) = mapM g l.
Proof.
  intros Hfg. induction l as [|x l IH]; [done|].
  change (mapM f (h <$> x :: l))
    with (y ← f (h x); k ← mapM f (h <$> l); mret (y :: k)).
  change (mapM g (x :: l)) with (y ← g x; k ← mapM g l; mret (y :: k)).
  by rewrite Hfg, IH.
Qed.

(** On the message dicts [collate_fn] builds, the general function and
    the one on typed content blocks return the same. *)
Theorem process_vision_info_typed (messages : list message) :
  Vision.process_vision_info (Vision.obj_of_message <$> messages)
  = Collate.process_vision_info messages.
Proof.
  unfold Vision.process_vision_info, Collate.process_vision_info.
  f_equal. apply mapM_fmap_agrees. intros m.
  unfold Vision.vision_of_message, Vision.obj_of_message. simpl.
  f_equal. apply mapM_fmap_agrees, vision_of_block_agrees.
Qed.

End VisionFacts.

(** ** The extra properties on concrete inputs *)

Lemma raw_rows_normalized :
  @Normalize.normalize_split Fixtures.keep_pixels Fixtures.raw_rows
  = Ok Fixtures.normalized_rows.
Proof. vm_compute. reflexivity. Qed.

Lemma normalize_split_schema_witness :
  length Fixtures.normalized_rows = length Fixtures.raw_rows
  /\ Forall (fun o : row =>
       exists im q a,
         o = {[ "image" := VImage im; "question" := VStr q; "answer" := a ]}
         /\ im_mode im = "RGB" /\ strip q = q) Fixtures.normalized_rows.
Proof.
  exact (@normalize_split_schema Fixtures.keep_pixels Fixtures.raw_rows
           Fixtures.normalized_rows raw_rows_normalized).
Defined.

Lemma query_label_precedence_witness :
  @Normalize._map Fixtures.keep_pixels Fixtures.both_schemas_row
  = @Normalize._map Fixtures.keep_pixels
      (delete "question" (delete "answer" Fixtures.both_schemas_row)).
Proof.
  exact (@query_label_precedence Fixtures.keep_pixels
           Fixtures.both_schemas_row eq_refl).
Defined.

Lemma normalize_twice_question_answer_witness :
  @Normalize._map Fixtures.keep_pixels (Fixtures.example "q0" "a0")
  = Ok (Fixtures.example "q0" "a0").
Proof.
  apply (@normalize_twice_question_answer Fixtures.keep_pixels
           (Fixtures.example " q0 " "a0") (Fixtures.example "q0" "a0")).
  - reflexivity.
  - vm_compute. reflexivity.
Defined.

Lemma renormalize_non_text_label_witness :
  exists out,
    @Normalize._map Fixtures.keep_pixels
      {[ "image" := VImage Fixtures.rgb_image; "query" := VStr (lit "q");
         "label" := VList [VInt 5] ]} = Ok out
    /\ @Normalize._map Fixtures.keep_pixels out = Raise AttributeError.
Proof.
  apply (@renormalize_non_text_label Fixtures.keep_pixels
           Fixtures.rgb_image (lit "q") 5 []). lia.
Defined.

Lemma answer_filter_kept_witness :
  [Fixtures.example "q0" "a0"; Fixtures.example "q2" "a2"]
  = List.filter (fun ex => match ex !! "answer" with
                           | Some (VStr s) => negb (bool_decide (strip s = []))
                           | _ => false
                           end) Fixtures.normalized_rows.
Proof.
  apply (@answer_filter_kept Fixtures.normalized_rows
           [Fixtures.example "q0" "a0"; Fixtures.example "q2" "a2"]).
  vm_compute. reflexivity.
Defined.

Lemma shard_size_witness :
  Data.shard (seq 0 3) 5 4 true = Raise IndexError
  /\ exists out,
       Data.shard (seq 0 10) 3 0 true = Ok out
       /\ Z.of_nat (length out) = 4.
Proof.
  split.
  - apply (proj1 (@shard_size nat (seq 0 3) 5 4 true ltac:(lia)));
      [reflexivity | discriminate | reflexivity].
  - apply (proj2 (@shard_size nat (seq 0 10) 3 0 true ltac:(lia))).
    right. right. vm_compute. reflexivity.
Defined.

Lemma strided_shard_rows_witness : seq 0 10 !! 7%nat = Some 7%nat.
Proof.
  apply (@strided_shard_rows nat (seq 0 10) [1; 4; 7]%nat 3 1 2%nat 7%nat);
    reflexivity.
Defined.

Lemma other_strategy_takes_prefix_witness :
  @Data.select_train nat Fixtures.reversing_lib (seq 0 10) (Some 3)
    "Random" 0 = Ok [0; 1; 2]%nat.
Proof.
  apply (@other_strategy_takes_prefix nat Fixtures.reversing_lib
           (seq 0 10) 3 "Random" 0). discriminate.
Defined.

Lemma rank_out_of_range_witness :
  @Data.rank_dataset nat Fixtures.reversing_lib (seq 0 10) (Some 4)
    "first" 0 2 5
  = Raise (ValueError "index should be in [0, num_shards-1]").
Proof.
  apply (@rank_out_of_range nat Fixtures.reversing_lib (seq 0 10) (seq 0 4)
           (Some 4) "first" 0 2 5); [reflexivity | lia | lia].
Defined.

Lemma contiguous_shards_concat_witness :
  exists shards : list (list nat),
    length shards = 3%nat
    /\ @Data.select_train nat Fixtures.contiguous_lib (seq 0 10) (Some 7)
         "first" 0 = Ok (concat shards).
Proof.
  destruct (@contiguous_shards_concat nat Fixtures.contiguous_lib
              contiguous_perm (seq 0 10) 7 "first" 0 3 eq_refl ltac:(lia)
              ltac:(right; simpl; lia))
    as (shards & Hlen & _ & Hcat).
  exists shards. split; [exact Hlen | exact Hcat].
Defined.

Lemma raw_rows_train :
  @Data.train_dataset_of Fixtures.keep_pixels Fixtures.reversing_lib
    Fixtures.raw_rows (Some 3) "first" 0 2 0
  = Ok [Fixtures.example "q0" "a0"; Fixtures.example "q2" "a2"].
Proof. vm_compute. reflexivity. Qed.

Lemma train_rows_normalized_witness :
  Forall (fun o : row =>
    exists im q s,
      o = {[ "image" := VImage im; "question" := VStr q; "answer" := VStr s ]}
      /\ im_mode im = "RGB" /\ strip q = q /\ strip s <> [])
    [Fixtures.example "q0" "a0"; Fixtures.example "q2" "a2"].
Proof.
  exact (@train_rows_normalized Fixtures.keep_pixels Fixtures.reversing_lib
           Fixtures.raw_rows _ (Some 3) "first" 0 2 0 raw_rows_train).
Defined.

Lemma train_samples_is_rank_size_witness :
  Metrics.train_samples (Some 3) 2 = 2.
Proof.
  apply (@train_samples_is_rank_size Fixtures.keep_pixels
           Fixtures.reversing_lib Fixtures.raw_rows
           [Fixtures.example "q0" "a0"; Fixtures.example "q2" "a2"]
           (Some 3) "first" 0 2 0 raw_rows_train).
  intros n [= <-]. lia.
Defined.

Lemma eos_collate :
  @Collate.collate_fn Fixtures.keep_pixels Fixtures.eos_processor
    Fixtures.demo_batch = Ok (Fixtures.demo_enc, Fixtures.demo_labels).
Proof. vm_compute. reflexivity. Qed.

Lemma demo_prepare :
  mapM (@Collate.prepare Fixtures.keep_pixels Fixtures.short_processor)
    Fixtures.demo_batch = Ok Fixtures.demo_prepared.
Proof. vm_compute. reflexivity. Qed.

Lemma labels_ignore_or_input_witness :
  99 = IGNORE_INDEX
  \/ exists r0, input_ids Fixtures.demo_enc !! 0%nat = Some r0
       /\ r0 !! 9%nat = Some 99.
Proof.
  apply (@labels_ignore_or_input Fixtures.keep_pixels Fixtures.char_processor
           Fixtures.demo_batch Fixtures.demo_enc Fixtures.demo_labels
           0%nat 9%nat
           [-100; -100; -100; -100; -100; -100; -100; -100; -100; 99; 97; 116]
           99 demo_collate); reflexivity.
Defined.

Lemma image_tokens_masked_witness :
  exists r, Fixtures.demo_labels !! 0%nat = Some r
    /\ r !! 3%nat = Some IGNORE_INDEX.
Proof.
  apply (@image_tokens_masked Fixtures.keep_pixels Fixtures.char_processor
           Fixtures.demo_batch Fixtures.demo_enc Fixtures.demo_labels
           0%nat 3%nat [85; 58; 1; 262144; 2; 113; 10; 65; 58; 99; 97; 116]
           262144 demo_collate); [reflexivity | reflexivity |].
  left. reflexivity.
Defined.

Lemma eos_masked_without_pad_token_witness :
  exists r, Fixtures.demo_labels !! 0%nat = Some r
    /\ r !! 6%nat = Some IGNORE_INDEX.
Proof.
  apply (@eos_masked_without_pad_token Fixtures.keep_pixels
           Fixtures.eos_processor Fixtures.demo_batch Fixtures.demo_enc
           Fixtures.demo_labels 0%nat 6%nat
           [85; 58; 1; 262144; 2; 113; 10; 65; 58; 99; 97; 116] [10%N] 10
           eos_collate); reflexivity.
Defined.

Lemma row_fully_masked_witness :
  Fixtures.blank_labels !! 0%nat = Some (replicate 6 IGNORE_INDEX).
Proof.
  apply (@row_fully_masked Fixtures.keep_pixels Fixtures.char_processor
           Fixtures.blank_batch Fixtures.blank_enc Fixtures.blank_labels
           0%nat (Fixtures.example "q" " ") 9%nat
           [85; 58; 1; 262144; 2; 113] blank_collate);
    [reflexivity | reflexivity | reflexivity | simpl; lia].
Defined.

Lemma collate_fn_short_encoding_witness :
  @Collate.collate_fn Fixtures.keep_pixels Fixtures.short_processor
    Fixtures.demo_batch = Raise IndexError.
Proof.
  apply (@collate_fn_short_encoding Fixtures.keep_pixels
           Fixtures.short_processor Fixtures.demo_batch
           Fixtures.demo_prepared Fixtures.short_enc demo_prepare).
  - vm_compute. reflexivity.
  - simpl. lia.
Defined.

Lemma prepare_one_image_witness :
  exists im, Fixtures.example "q" "cat" !! "image" = Some (VImage im)
    /\ [Fixtures.rgb_image] = [@convert Fixtures.keep_pixels im "RGB"]
    /\ Forall (fun i => im_mode i = "RGB") [Fixtures.rgb_image].
Proof.
  apply (@prepare_one_image Fixtures.keep_pixels Fixtures.char_processor
           (Fixtures.example "q" "cat")
           (Z.to_N <$> [85; 58; 1; 262144; 2; 113; 10; 65; 58; 99; 97; 116])
           [Fixtures.rgb_image]
           {| shape := [9%nat];
              data := [85; 58; 1; 262144; 2; 113; 10; 65; 58] |}).
  vm_compute. reflexivity.
Defined.

Lemma blank_answer_as_missing_witness :
  @Collate.prepare Fixtures.keep_pixels Fixtures.char_processor
    (<["answer" := VStr (lit "  ")]> (Fixtures.example "q" "x"))
  = @Collate.prepare Fixtures.keep_pixels Fixtures.char_processor
      (delete "answer" (Fixtures.example "q" "x")).
Proof.
  apply (@blank_answer_as_missing Fixtures.keep_pixels
           Fixtures.char_processor (Fixtures.example "q" "x") (lit "  ")).
  reflexivity.
Defined.

Lemma prepare_train_row_witness :
  exists text p_ids,
    @Collate.prepare Fixtures.keep_pixels Fixtures.char_processor
      (Fixtures.example "q" "cat") = Ok (text, [Fixtures.rgb_image], p_ids).
Proof.
  pose proof (@prepare_train_row Fixtures.keep_pixels Fixtures.char_processor
                Fixtures.rgb_image (lit "q") (lit "cat")
                eq_refl eq_refl ltac:(discriminate)) as Hp.
  eexists _, _. etrans; [exact Hp|]. vm_compute. reflexivity.
Defined.

Lemma collate_fn_needs_question_and_image_witness :
  exists e,
    @Collate.collate_fn Fixtures.keep_pixels Fixtures.char_processor
      [Fixtures.example "q" "a"; Fixtures.question_only_row] = Raise e.
Proof.
  apply (@collate_fn_needs_question_and_image Fixtures.keep_pixels
           Fixtures.char_processor
           [Fixtures.example "q" "a"; Fixtures.question_only_row]
           Fixtures.question_only_row).
  - apply list_elem_of_In. simpl. tauto.
  - right. intros im. vm_compute. discriminate.
Defined.

Lemma parsed_targets_clean_witness :
  Forall (fun m => m <> [] /\ strip m = m /\ Lora.comma ∉ m)
    [lit "q_proj"; lit "v_proj"].
Proof.
  apply (@parsed_targets_clean (lit "q_proj, v_proj,,  ")).
  vm_compute. reflexivity.
Defined.

Lemma proj_names_clean :
  Forall (fun m => m <> [] /\ strip m = m /\ Lora.comma ∉ m)
    [lit "q_proj"; lit "v_proj"].
Proof.
  repeat constructor; try discriminate;
    rewrite list_elem_of_In; simpl; intuition discriminate.
Qed.

Lemma parse_join_round_trip_witness :
  Lora.parse_target_modules (Some (Lora.join [lit "q_proj"; lit "v_proj"]))
  = Lora.TList [lit "q_proj"; lit "v_proj"].
Proof.
  apply parse_join_round_trip.
  - exact proj_names_clean.
  - discriminate.
Defined.

Lemma process_vision_info_rgb_witness :
  Forall (fun i => im_mode i = "RGB")
    [{| im_mode := "RGB"; im_size := (1%nat, 1%nat); im_data := [7] |}].
Proof.
  apply (@process_vision_info_rgb Fixtures.keep_pixels
           [VisionFixtures.user_dict]).
  vm_compute. reflexivity.
Defined.
